(** * FireCrawl News Monitor: headline classifier, markdown fallback parser,
      scrape handler and dashboard aggregation.

    A shallow embedding of [pages/api/scrape.ts] (the second half of
    [src/pages/index.tsx]) and of [processAnalytics] in
    [src/pages/dashboard.tsx].

    JavaScript strings are modelled as [string]: sequences of code units
    below 256 (the Latin-1 range), on which the builtins used by the source
    ([toLowerCase], [includes], [split], the character classes [\s], [\W]
    and [.]) are written out below. *)

From Stdlib Require Import String Ascii List Bool Arith ZArith NArith Lia.
From Stdlib Require Import Permutation Sorted.
From Stdlib Require Import SpecFloat Floats Uint63 DecimalString.
Import ListNotations.

Local Open Scope string_scope.
Local Open Scope list_scope.

(* ================================================================== *)
(** ** JavaScript string builtins *)
(* ================================================================== *)

Module JsString.

(** [String.prototype.toLowerCase] on one code unit of the Latin-1 range:
    A-Z and the accented capitals U+00C0..U+00DE (without the multiplication
    sign U+00D7) move up by 32, everything else stays. *)
Definition lowerChar (c : ascii) : ascii :=
  let n := nat_of_ascii c in
  if (((65 <=? n) && (n <=? 90))
      || ((192 <=? n) && (n <=? 222) && negb (n =? 215)))%nat
  then ascii_of_nat (n + 32)
  else c.

Fixpoint toLowerCase (s : string) : string :=
  match s with
  | EmptyString => EmptyString
  | String c s' => String (lowerChar c) (toLowerCase s')
  end.

(** [s.startsWith(p)], the test [includes] repeats at every position. *)
Fixpoint startsWith (s p : string) : bool :=
  match p, s with
  | EmptyString, _ => true
  | String _ _, EmptyString => false
  | String a p', String b s' => Ascii.eqb a b && startsWith s' p'
  end.

(** [s.includes(sub)]: [sub] occurs in [s] at some position. *)
Fixpoint includes (s sub : string) : bool :=
  startsWith s sub ||
  match s with
  | EmptyString => false
  | String _ s' => includes s' sub
  end.

(** [s.split(sep)] for a one-character separator: the pieces between the
    separators, so the empty string gives one empty piece. *)
Fixpoint splitChar (sep : ascii) (s : string) : list string :=
  match s with
  | EmptyString => [EmptyString]
  | String c s' =>
      if Ascii.eqb c sep then EmptyString :: splitChar sep s'
      else match splitChar sep s' with
           | [] => [String c EmptyString]
           | piece :: pieces => String c piece :: pieces
           end
  end.

End JsString.
Import JsString.

(* ================================================================== *)
(** ** Headline classifier ([pages/api/scrape.ts]) *)
(* ================================================================== *)

(** [Article['category']]. *)
Inductive Category := AI | Funding | Product | Regulation | Other.

(** [interface Article]; an absent [company] is [None]. *)
Record Article := mkArticle {
  headline : string;
  company : option string;
  category : Category
}.

(** [categorizeHeadline]: the chain of [if]s over the case-folded headline. *)
Definition categorizeHeadline (headline : string) : Category :=
  let lower := toLowerCase headline in
  if includes lower "ai" || includes lower "artificial intelligence"
     || includes lower "machine learning" || includes lower "chatgpt"
     || includes lower "openai" then AI
  else if includes lower "funding" || includes lower "investment"
     || includes lower "raises" || includes lower "series"
     || includes lower "venture" then Funding
  else if includes lower "product" || includes lower "launch"
     || includes lower "release" || includes lower "update"
     || includes lower "feature" then Product
  else if includes lower "regulation" || includes lower "policy"
     || includes lower "government" || includes lower "legal"
     || includes lower "lawsuit" then Regulation
  else Other.

(** The [companies] array of [extractCompanyFromHeadline]. *)
Definition companies : list string :=
  ["Microsoft"; "Google"; "Apple"; "Amazon"; "Meta"; "Tesla"; "OpenAI";
   "Anthropic"; "SpaceX"; "Uber"; "Airbnb"; "Netflix"; "X"; "TikTok";
   "ByteDance"].

(** The [for (const company of companies)] loop with its early [return]. *)
Fixpoint scanCompanies (headline : string) (cs : list string) : option string :=
  match cs with
  | [] => None
  | company :: rest =>
      if includes (toLowerCase headline) (toLowerCase company)
      then Some company
      else scanCompanies headline rest
  end.

Definition extractCompanyFromHeadline (headline : string) : option string :=
  scanCompanies headline companies.

(** *** The classifier as the specification words it

    The keyword groups in priority order; the classifier of the
    specification returns the category of the first group one of whose
    keywords occurs in the case-folded headline. *)
Definition keywordGroups : list (Category * list string) :=
  [ (AI, ["ai"; "artificial intelligence"; "machine learning"; "chatgpt"; "openai"]);
    (Funding, ["funding"; "investment"; "raises"; "series"; "venture"]);
    (Product, ["product"; "launch"; "release"; "update"; "feature"]);
    (Regulation, ["regulation"; "policy"; "government"; "legal"; "lawsuit"]) ].

(** A group matches when one of its keywords is a substring. *)
Definition groupMatches (lower : string) (g : Category * list string) : bool :=
  existsb (includes lower) (snd g).

(** The category of the first matching group, [Other] when none matches. *)
Fixpoint firstMatch (lower : string) (groups : list (Category * list string))
  : Category :=
  match groups with
  | [] => Other
  | g :: rest => if groupMatches lower g then fst g else firstMatch lower rest
  end.

(** A company name occurs in the headline, both case-folded. *)
Definition mentions (headline company : string) : bool :=
  includes (toLowerCase headline) (toLowerCase company).

(* ================================================================== *)
(** ** Markdown headline extraction ([parseHeadlinesFromMarkdown]) *)
(* ================================================================== *)

Module Regex.

(** The character classes of [/^#{1,4}\s+\[(.+?)\]/] on the Latin-1 range:
    [\s] is TAB, LF, VT, FF, CR, space and the no-break space; [.] is
    everything but the line terminators LF and CR. *)
Definition isHash (c : ascii) : bool := Ascii.eqb c "#".

Definition isSpace (c : ascii) : bool :=
  let n := nat_of_ascii c in
  (((9 <=? n) && (n <=? 13)) || (n =? 32) || (n =? 160))%nat.

Definition isLineTerminator (c : ascii) : bool :=
  let n := nat_of_ascii c in ((n =? 10) || (n =? 13))%nat.

Fixpoint countWhile (p : ascii -> bool) (s : string) : nat :=
  match s with
  | String c s' => if p c then S (countWhile p s') else 0
  | EmptyString => 0
  end.

Fixpoint dropWhile (p : ascii -> bool) (s : string) : string :=
  match s with
  | String c s' => if p c then dropWhile p s' else s
  | EmptyString => s
  end.

(** The lazy group [(.+?)] after its first character, up to the closing
    bracket: the shortest run of dots that a [\]] follows. *)
Fixpoint lazyUntilBracket (s : string) : option string :=
  match s with
  | EmptyString => None
  | String c s' =>
      if Ascii.eqb c "]" then Some EmptyString
      else if isLineTerminator c then None
      else option_map (String c) (lazyUntilBracket s')
  end.

(** [line.match(/^#{1,4}\s+\[(.+?)\]/)], giving capture group 1.  The
    greedy [#{1,4}] and [\s+] cannot give characters back: the character
    after a shorter run would be a [#] where [\s] is wanted, or a space
    where [\[] is wanted.  So the line matches when its run of hashes has
    1 to 4 of them, a run of white space follows, then a bracket, one dot
    and the lazy rest. *)
Definition headlineMatch (line : string) : option string :=
  let hashes := countWhile isHash line in
  if ((1 <=? hashes) && (hashes <=? 4))%nat then
    let afterHashes := dropWhile isHash line in
    if (1 <=? countWhile isSpace afterHashes)%nat then
      match dropWhile isSpace afterHashes with
      | String "[" (String c rest) =>
          if isLineTerminator c then None
          else option_map (String c) (lazyUntilBracket rest)
      | _ => None
      end
    else None
  else None.

End Regex.
Import Regex.

(** The line feed [markdown.split] cuts at. *)
Definition LF : ascii := ascii_of_nat 10.

(** The article pushed for a matching line. *)
Definition articleOfHeadline (headline : string) : Article :=
  mkArticle headline (extractCompanyFromHeadline headline)
            (categorizeHeadline headline).

(** The [for (const line of lines)] loop; [articles] is the array built so
    far and the loop breaks once it holds 5. *)
Fixpoint parseLoop (lines : list string) (articles : list Article)
  : list Article :=
  match lines with
  | [] => articles
  | line :: rest =>
      match headlineMatch line with
      | Some headline =>
          let articles' := articles ++ [articleOfHeadline headline] in
          if (5 <=? length articles')%nat then articles'
          else parseLoop rest articles'
      | None => parseLoop rest articles
      end
  end.

Definition parseHeadlinesFromMarkdown (markdown : string) : list Article :=
  parseLoop (splitChar LF markdown) [].

(** The headlines of the qualifying lines, in line order. *)
Fixpoint qualifying (lines : list string) : list string :=
  match lines with
  | [] => []
  | line :: rest =>
      match headlineMatch line with
      | Some headline => headline :: qualifying rest
      | None => qualifying rest
      end
  end.

(* ================================================================== *)
(** ** The scrape handler ([handler] of [pages/api/scrape.ts]) *)
(* ================================================================== *)

(** [interface ScrapeResponse]. *)
Record ScrapeResponse := mkScrapeResponse {
  success : bool;
  articles : option (list Article);
  error : option string
}.

(** What [res.status(code).json(body)] sends. *)
Record Reply := mkReply {
  status : nat;
  body : ScrapeResponse
}.

(** The parts of the request and of [process.env] the handler reads. *)
Record Request := mkRequest { method : option string }.
Record Env := mkEnv { FIRECRAWL_API_KEY : option string }.

(** One article object of the extraction payload, every field optional. *)
Record RawArticle := mkRawArticle {
  raw_headline : option string;
  raw_company : option string;
  raw_category : option Category
}.

(** [response.data] of the extract call: [data.data[i].extract.articles]. *)
Record Extracted := mkExtracted { extracted_articles : option (list RawArticle) }.
Record ExtractItem := mkExtractItem { extract : option Extracted }.
Record ExtractBody := mkExtractBody { extract_data : option (list ExtractItem) }.
Record ExtractResponse := mkExtractResponse { extract_body : option ExtractBody }.

(** [scrapeResponse.data] of the scrape call: [data.data.markdown]. *)
Record ScrapeData := mkScrapeData { markdown : option string }.
Record ScrapeBody := mkScrapeBody { scrape_data : option ScrapeData }.
Record MarkdownResponse := mkMarkdownResponse { scrape_body : option ScrapeBody }.

(** The promise of an [axios.post]: resolved with a response, or rejected
    (transport failure, or a status outside 2xx such as 401). *)
Inductive Outcome (A : Type) :=
  | Resolved (a : A)
  | Rejected.
Arguments Resolved {A} a.
Arguments Rejected {A}.

(** The two FireCrawl endpoints the handler posts to. *)
Inductive Endpoint := ExtractEndpoint | ScrapeEndpoint.

(** The remote service: what each endpoint answers to a bearer key. *)
Record FireCrawl := mkFireCrawl {
  postExtract : string -> Outcome ExtractResponse;
  postScrape : string -> Outcome MarkdownResponse
}.

(** One external call made, and whether its promise was rejected. *)
Record Call := mkCall {
  endpoint : Endpoint;
  rejected : bool
}.

(** Computations that may throw and that log their external calls. *)
Definition Eff (A : Type) : Type := list Call -> Outcome A * list Call.

Definition ret {A} (a : A) : Eff A := fun log => (Resolved a, log).

Definition bind {A B} (m : Eff A) (k : A -> Eff B) : Eff B :=
  fun log =>
    match m log with
    | (Resolved a, log') => k a log'
    | (Rejected, log') => (Rejected, log')
    end.

(** [try { body } catch { handler }]. *)
Definition tryCatch {A} (tryBody handler : Eff A) : Eff A :=
  fun log =>
    match tryBody log with
    | (Resolved a, log') => (Resolved a, log')
    | (Rejected, log') => handler log'
    end.

Definition isRejected {A} (o : Outcome A) : bool :=
  match o with Rejected => true | Resolved _ => false end.

(** [await axios.post(url, ...)]: logged, and thrown on when rejected. *)
Definition post {A} (e : Endpoint) (answer : Outcome A) : Eff A :=
  fun log => (answer, log ++ [mkCall e (isRejected answer)]).

Notation "x <- m ;; k" := (bind m (fun x => k))
  (at level 61, m at next level, right associativity).

(** JavaScript truthiness of an optional string: absent and empty are falsy. *)
Definition truthy (s : option string) : bool :=
  match s with
  | Some EmptyString | None => false
  | Some _ => true
  end.

(** [s || fallback] on optional strings. *)
Definition orElse (s : option string) (fallback : string) : string :=
  match s with
  | Some EmptyString | None => fallback
  | Some v => v
  end.

(** [generateMockData]. *)
Definition generateMockData : list Article :=
  [ mkArticle "OpenAI announces new GPT-5 model with improved reasoning capabilities"
              (Some "OpenAI") AI;
    mkArticle "Series A funding round raises $50M for fintech startup Stripe competitor"
              None Funding;
    mkArticle "Apple releases iOS 18 with enhanced privacy features"
              (Some "Apple") Product;
    mkArticle "EU proposes new AI regulations for tech companies"
              None Regulation;
    mkArticle "Tesla CEO discusses future of electric vehicle market"
              (Some "Tesla") Other ].

(** The callback of [extractedData.articles.map]. *)
Definition normalizeArticle (article : RawArticle) : Article :=
  mkArticle (orElse (raw_headline article) "Untitled Article")
            (if truthy (raw_company article) then raw_company article else None)
            (match raw_category article with Some c => c | None => Other end).

(** The articles read off the extract response; [[]] when a level of the
    payload is missing or [data.data] is empty. *)
Definition extractedArticles (response : ExtractResponse) : list Article :=
  match extract_body response with
  | Some b =>
      match extract_data b with
      | Some (first :: _) =>
          match extract first with
          | Some extractedData =>
              match extracted_articles extractedData with
              | Some l => map normalizeArticle l
              | None => []
              end
          | None => []
          end
      | _ => []
      end
  | None => []
  end.

(** The markdown of the scrape response, when every level is truthy. *)
Definition scrapedMarkdown (response : MarkdownResponse) : option string :=
  match scrape_body response with
  | Some b =>
      match scrape_data b with
      | Some d => if truthy (markdown d) then markdown d else None
      | None => None
      end
  | None => None
  end.

Definition mockReply : Reply :=
  mkReply 200 (mkScrapeResponse true (Some generateMockData) None).

(** The body of the [try] block. *)
Definition tryBlock (env : Env) (api : FireCrawl) : Eff Reply :=
  match FIRECRAWL_API_KEY env with
  | None | Some EmptyString =>
      ret (mkReply 500 (mkScrapeResponse false None
        (Some "FireCrawl API key not configured. Please add FIRECRAWL_API_KEY to your environment variables.")))
  | Some firecrawlApiKey =>
      response <- post ExtractEndpoint (postExtract api firecrawlApiKey) ;;
      let articles := extractedArticles response in
      articles <-
        (if (length articles =? 0)%nat then
           scrapeResponse <- post ScrapeEndpoint (postScrape api firecrawlApiKey) ;;
           match scrapedMarkdown scrapeResponse with
           | Some markdown =>
               ret (firstn 5 (parseHeadlinesFromMarkdown markdown))
           | None => ret articles
           end
         else ret articles) ;;
      ret (mkReply 200 (mkScrapeResponse true
             (Some (if (0 <? length articles)%nat then articles
                    else generateMockData)) None))
  end.

(** [req.method === name]; an absent method equals no name. *)
Definition isMethod (m : option string) (name : string) : bool :=
  match m with
  | Some m' => String.eqb m' name
  | None => false
  end.

(** [handler(req, res)]: the reply sent, with the log of external calls. *)
Definition handler (req : Request) (env : Env) (api : FireCrawl) : Eff Reply :=
  if negb (isMethod (method req) "POST") then
    ret (mkReply 405 (mkScrapeResponse false None (Some "Method not allowed")))
  else tryCatch (tryBlock env api) (ret mockReply).

(** Running the handler from an empty log. *)
Definition runHandler (req : Request) (env : Env) (api : FireCrawl)
  : Outcome Reply * list Call :=
  handler req env api [].

(** *** The page's [fetchNews] ([pages/index.tsx]) *)

(** The three pieces of React state [fetchNews] sets. *)
Record PageState := mkPageState {
  page_articles : list Article;
  page_loading : bool;
  page_error : option string
}.

(** [fetchNews] once the [axios.post('/api/scrape')] settled: axios
    resolves on a 2xx reply and rejects otherwise, the rejection carrying
    the reply in [err.response]; [None] is a call that got no reply. *)
Definition fetchNews (st : PageState) (reply : option Reply) : PageState :=
  match reply with
  | Some r =>
      if ((200 <=? status r) && (status r <? 300))%nat then
        match success (body r), articles (body r) with
        | true, Some l => mkPageState l false None
        | _, _ =>
            mkPageState (page_articles st) false
              (Some (orElse (error (body r)) "Failed to fetch news"))
        end
      else
        mkPageState (page_articles st) false
          (Some (orElse (error (body r)) "An error occurred while fetching news"))
  | None =>
      mkPageState (page_articles st) false
        (Some "An error occurred while fetching news")
  end.

(* ================================================================== *)
(** ** JavaScript objects used as counters *)
(* ================================================================== *)

Module JsObject.

(** A plain object whose own properties all hold numbers: the properties
    in the order [Object.entries] lists them, which is the array-index keys
    in ascending numeric order followed by the other keys in the order they
    were created. *)
Definition t := list (string * N).

Definition isDigit (c : ascii) : bool :=
  let n := nat_of_ascii c in ((48 <=? n) && (n <=? 57))%nat.

Fixpoint allDigits (s : string) : bool :=
  match s with
  | EmptyString => true
  | String c s' => isDigit c && allDigits s'
  end.

(** The number a string of decimal digits denotes, read left to right. *)
Fixpoint decimalValue (acc : N) (s : string) : N :=
  match s with
  | EmptyString => acc
  | String c s' => decimalValue (10 * acc + N.of_nat (nat_of_ascii c - 48)) s'
  end.

(** The array index a property key denotes: a canonical numeric string
    (decimal digits, no leading zero but for ["0"]) of value at most
    [2^32 - 2]. *)
Definition arrayIndex (key : string) : option N :=
  match key with
  | EmptyString => None
  | String c rest =>
      if allDigits key
         && (negb (Ascii.eqb c "0") || String.eqb rest EmptyString)
         && (decimalValue 0 key <? 4294967295)%N
      then Some (decimalValue 0 key)
      else None
  end.

(** The own property [key], if there is one. *)
Fixpoint own (o : t) (key : string) : option N :=
  match o with
  | [] => None
  | (k, v) :: rest => if String.eqb k key then Some v else own rest key
  end.

(** Overwriting the value of an own property: its place is kept. *)
Fixpoint overwrite (o : t) (key : string) (v : N) : t :=
  match o with
  | [] => []
  | (k, w) :: rest =>
      if String.eqb k key then (k, v) :: rest
      else (k, w) :: overwrite rest key v
  end.

(** Creating the array-index property [key], of index [i]: it goes before
    the first property that is no array index or has a larger index. *)
Fixpoint createIndexed (o : t) (key : string) (i : N) (v : N) : t :=
  match o with
  | [] => [(key, v)]
  | (k, w) :: rest =>
      match arrayIndex k with
      | Some j =>
          if (j <? i)%N then (k, w) :: createIndexed rest key i v
          else (key, v) :: o
      | None => (key, v) :: o
      end
  end.

(** Creating a property that [o] does not have. *)
Definition create (o : t) (key : string) (v : N) : t :=
  match arrayIndex key with
  | Some i => createIndexed o key i v
  | None => o ++ [(key, v)]
  end.

(** The property names every object inherits from [Object.prototype] as
    functions; reading one of them off [{}] gives a truthy function. *)
Definition inheritedNames : list string :=
  ["constructor"; "__defineGetter__"; "__defineSetter__"; "hasOwnProperty";
   "__lookupGetter__"; "__lookupSetter__"; "isPrototypeOf";
   "propertyIsEnumerable"; "toString"; "valueOf"; "toLocaleString"].

Definition inherited (key : string) : bool :=
  existsb (String.eqb key) inheritedNames.

(** [acc[key] = (acc[key] || 0) + 1] on an object that started as [{}].
    - An own property holds a number and is incremented in place.
    - For ["__proto__"] the read gives [Object.prototype], the sum is a
      string and the inherited setter ignores it: nothing changes.
    - For another inherited name the read gives a function and the sum is a
      string, stored as the count: the object leaves this model, [None].
    - Otherwise the read gives [undefined] and the property is created
      with 1. *)
Definition bump (acc : t) (key : string) : option t :=
  if String.eqb key "__proto__" then Some acc
  else match own acc key with
       | Some n => Some (overwrite acc key (n + 1))
       | None => if inherited key then None else Some (create acc key 1)
       end.

(** [keys.reduce((acc, key) => { acc[key] = ...; return acc }, start)]. *)
Fixpoint countInto (acc : t) (keys : list string) : option t :=
  match keys with
  | [] => Some acc
  | key :: rest =>
      match bump acc key with
      | Some acc' => countInto acc' rest
      | None => None
      end
  end.

(** A key whose count stays a number. *)
Definition countable (key : string) : bool := negb (inherited key).

(** A key that gets a property at all. *)
Definition recorded (key : string) : bool := negb (String.eqb key "__proto__").

End JsObject.

(* ================================================================== *)
(** ** [Array.prototype.sort] *)
(* ================================================================== *)

Module JsSort.

Section StableSort.
Context {A : Type}.
(** [before a b]: the comparator does not put [b] ahead of [a], that is
    [compareFn(a, b) <= 0]. *)
Variable before : A -> A -> bool.

Fixpoint insert (x : A) (l : list A) : list A :=
  match l with
  | [] => [x]
  | y :: rest => if before x y then x :: l else y :: insert x rest
  end.

(** The sort is stable, so with a consistent comparator its result is
    fixed: each element goes in front of the sorted later elements, ahead
    of those it ties with. *)
Fixpoint sort (l : list A) : list A :=
  match l with
  | [] => []
  | x :: rest => insert x (sort rest)
  end.
End StableSort.

End JsSort.

(** [l.slice(-n)]: the last [n] elements. *)
Definition lastn {A} (n : nat) (l : list A) : list A :=
  skipn (length l - n) l.

(* ================================================================== *)
(** ** JavaScript numbers in the percentage *)
(* ================================================================== *)

Module JsNumber.

Local Open Scope Z_scope.

(** Numbers are IEEE 754 binary64 values. *)
Definition prec : Z := 53.
Definition emax : Z := 1024.

(** The double nearest to an integer. *)
Definition ofZ (n : Z) : spec_float := binary_normalize prec emax n 0 false.

Definition div (x y : spec_float) : spec_float := SFdiv prec emax x y.
Definition mul (x y : spec_float) : spec_float := SFmul prec emax x y.

(** [Math.round]: the integer nearest to a finite double, a tie going to
    the larger one; [None] stands for NaN and the infinities, which
    [Math.round] returns as they are. *)
Definition round (x : spec_float) : option Z :=
  match x with
  | S754_zero _ => Some 0
  | S754_finite s m e =>
      let n := cond_Zopp s (Zpos m) in
      Some (if 0 <=? e then n * 2 ^ e
            else (2 * n + 2 ^ (- e)) / 2 ^ (1 - e))
  | _ => None
  end.

(** [Math.round((count / total) * 100)]. *)
Definition percentageOf (count : N) (total : nat) : option Z :=
  round (mul (div (ofZ (Z.of_N count)) (ofZ (Z.of_nat total))) (ofZ 100)).

(** The percentage in exact arithmetic: [100 * count / total] rounded to
    the nearest integer, a half going up. *)
Definition exactHalfUp (count : N) (total : nat) : Z :=
  (200 * Z.of_N count + Z.of_nat total) / (2 * Z.of_nat total).

(** The same product on the machine's binary64 numbers, read back as a
    [spec_float]. *)
Definition machineProduct (count total : Z) : spec_float :=
  Prim2SF (PrimFloat.mul
             (PrimFloat.div (PrimFloat.of_uint63 (Uint63.of_Z count))
                            (PrimFloat.of_uint63 (Uint63.of_Z total)))
             (PrimFloat.of_uint63 (Uint63.of_Z 100))).

(** The two agree for every count from 1 to [total] and every total from
    1 to [bound]. *)
Definition machineAgreesUpTo (bound : nat) : bool :=
  forallb
    (fun total =>
       forallb
         (fun count =>
            SFeqb (machineProduct (Z.of_nat count) (Z.of_nat total))
                  (mul (div (ofZ (Z.of_nat count)) (ofZ (Z.of_nat total)))
                       (ofZ 100)))
         (seq 1 total))
    (seq 1 bound).

End JsNumber.

(* ================================================================== *)
(** ** Dashboard aggregation ([processAnalytics] of [pages/dashboard.tsx]) *)
(* ================================================================== *)

(** [interface NewsArticle]. *)
Record NewsArticle := mkNewsArticle {
  id : Z;
  title : string;
  url : string;
  topic : string;
  published_date : string;
  created_at : string
}.

(** [interface TopicDistribution]; [percentage] is [None] when
    [Math.round] gives no integer. *)
Record TopicDistribution := mkTopicDistribution {
  td_topic : string;
  td_count : N;
  td_percentage : option Z;
  td_color : string
}.

(** [interface ArticlesByDate]. *)
Record ArticlesByDate := mkArticlesByDate {
  abd_date : string;
  abd_count : N
}.

(** [interface WordFrequency]. *)
Record WordFrequency := mkWordFrequency {
  wf_word : string;
  wf_count : N
}.

(** The host the page runs on: its [Date] parser, giving the time value in
    milliseconds or [None] for NaN, and its [toLocaleDateString] for a
    valid time value, which depends on the locale and the time zone. *)
Record Host := mkHost {
  Date_parse : string -> option Z;
  toLocaleDateString : Z -> string
}.

(** [new Date(s).toLocaleDateString()]. *)
Definition displayDate (host : Host) (s : string) : string :=
  match Date_parse host s with
  | Some t => toLocaleDateString host t
  | None => "Invalid Date"
  end.

(** [topicColors[topic] || topicColors.Other] for a topic that is a
    property of [topicCounts]. *)
Definition topicColor (topic : string) : string :=
  if String.eqb topic "AI" then "#8B5CF6"
  else if String.eqb topic "Funding" then "#10B981"
  else if String.eqb topic "Product" then "#F59E0B"
  else if String.eqb topic "Regulation" then "#EF4444"
  else "#6B7280".

(** *** Topic distribution *)

Definition topicCounts (data : list NewsArticle) : option JsObject.t :=
  JsObject.countInto [] (map topic data).

Definition distributionEntry (total : nat) (entry : string * N)
  : TopicDistribution :=
  let (topic, count) := entry in
  mkTopicDistribution topic count (JsNumber.percentageOf count total)
                      (topicColor topic).

Definition topicDistribution (data : list NewsArticle)
  : option (list TopicDistribution) :=
  let total := length data in
  option_map (map (distributionEntry total)) (topicCounts data).

(** *** Articles by date *)

Definition dateGroups (host : Host) (data : list NewsArticle)
  : option JsObject.t :=
  JsObject.countInto []
    (map (fun article => displayDate host (published_date article)) data).

(** [new Date(a.date).getTime()]. *)
Definition stamp (host : Host) (a : ArticlesByDate) : option Z :=
  Date_parse host (abd_date a).

Definition isSome {A} (o : option A) : bool :=
  match o with Some _ => true | None => false end.

(** [a] is not sorted after [b]: the comparator's difference is not
    positive. *)
Definition notLater (host : Host) (a b : ArticlesByDate) : bool :=
  match stamp host a, stamp host b with
  | Some ta, Some tb => (ta <=? tb)%Z
  | _, _ => true
  end.

(** [.sort((a, b) => new Date(a.date).getTime() - new Date(b.date).getTime())].
    When every date parses the comparator is consistent and the stable
    sort is fixed.  When none does every difference is NaN, which the sort
    reads as a tie, and the order is kept.  When some do and some do not,
    the comparator is inconsistent and the order is left to the
    implementation: [None]. *)
Definition sortByDate (host : Host) (l : list ArticlesByDate)
  : option (list ArticlesByDate) :=
  if forallb (fun a => isSome (stamp host a)) l
  then Some (JsSort.sort (notLater host) l)
  else if forallb (fun a => negb (isSome (stamp host a))) l
  then Some l
  else None.

Definition dateEntry (entry : string * N) : ArticlesByDate :=
  let (date, count) := entry in mkArticlesByDate date count.

Definition articlesByDate (host : Host) (data : list NewsArticle)
  : option (list ArticlesByDate) :=
  match dateGroups host data with
  | Some groups =>
      option_map (lastn 7) (sortByDate host (map dateEntry groups))
  | None => None
  end.

(** *** Word frequency *)

Definition stopwords : list string :=
  ["the"; "a"; "an"; "and"; "or"; "but"; "in"; "on"; "at"; "to"; "for";
   "of"; "with"; "by"; "from"; "up"; "about"; "into"; "through"; "during";
   "before"; "after"; "above"; "below"; "between"; "among"; "is"; "are";
   "was"; "were"; "be"; "been"; "being"; "have"; "has"; "had"; "do"; "does";
   "did"; "will"; "would"; "could"; "should"; "may"; "might"; "must"; "can";
   "cant"; "wont"; "dont"; "doesnt"; "didnt"; "isnt"; "arent"; "wasnt";
   "werent"; "hasnt"; "havent"; "hadnt"; "wouldnt"; "couldnt"; "shouldnt";
   "mightnt"; "mustnt"].

(** [stopwords.has(word)]. *)
Definition isStopword (word : string) : bool :=
  existsb (String.eqb word) stopwords.

(** The class [\w]: ASCII letters, digits and the underscore. *)
Definition isWordChar (c : ascii) : bool :=
  let n := nat_of_ascii c in
  (((48 <=? n) && (n <=? 57)) || ((65 <=? n) && (n <=? 90))
   || ((97 <=? n) && (n <=? 122)) || (n =? 95))%nat.

(** [s.split(/\W+/)]: the pieces between the runs of non-word characters;
    a run at the start or at the end leaves an empty piece there. *)
Fixpoint splitNonWord (s : string) : list string :=
  match s with
  | EmptyString => [EmptyString]
  | String c s' =>
      if isWordChar c then
        match splitNonWord s' with
        | [] => [String c EmptyString]
        | piece :: pieces => String c piece :: pieces
        end
      else
        match s' with
        | String c' _ =>
            if isWordChar c' then EmptyString :: splitNonWord s'
            else splitNonWord s'
        | EmptyString => EmptyString :: splitNonWord s'
        end
  end.

(** The callback of [.filter]. *)
Definition keepWord (word : string) : bool :=
  (2 <? String.length word)%nat && negb (isStopword word).

Definition words (data : list NewsArticle) : list string :=
  filter keepWord
    (flat_map (fun article => splitNonWord (toLowerCase (title article))) data).

Definition wordCounts (data : list NewsArticle) : option JsObject.t :=
  JsObject.countInto [] (words data).

Definition wordEntry (entry : string * N) : WordFrequency :=
  let (word, count) := entry in mkWordFrequency word count.

(** [b.count - a.count <= 0]. *)
Definition notFewer (a b : WordFrequency) : bool :=
  (wf_count b <=? wf_count a)%N.

Definition wordFrequency (data : list NewsArticle)
  : option (list WordFrequency) :=
  option_map
    (fun counts => firstn 5 (JsSort.sort notFewer (map wordEntry counts)))
    (wordCounts data).

(** *** The four states [processAnalytics] sets *)

Record Analytics := mkAnalytics {
  an_topicDistribution : option (list TopicDistribution);
  an_articlesByDate : option (list ArticlesByDate);
  an_wordFrequency : option (list WordFrequency);
  an_recentArticles : list NewsArticle
}.

Definition processAnalytics (host : Host) (data : list NewsArticle)
  : Analytics :=
  mkAnalytics (topicDistribution data) (articlesByDate host data)
              (wordFrequency data) (firstn 5 data).

(* ================================================================== *)
(** ** Two concrete hosts, in the UTC time zone *)
(* ================================================================== *)

Module Hosts.

Local Open Scope Z_scope.

Definition msPerDay : Z := 86400000.

(** Days from 1970-01-01 to the civil date [y]-[m]-[d] of the proleptic
    Gregorian calendar; a day number past the end of the month runs into
    the next one. *)
Definition daysFromCivil (y m d : Z) : Z :=
  let y' := if m <=? 2 then y - 1 else y in
  let era := y' / 400 in
  let yoe := y' - era * 400 in
  let doy := (153 * (if 2 <? m then m - 3 else m + 9) + 2) / 5 + d - 1 in
  let doe := yoe * 365 + yoe / 4 - yoe / 100 + doy in
  era * 146097 + doe - 719468.

(** The civil date (year, month, day) of a day number. *)
Definition civilFromDays (z : Z) : Z * Z * Z :=
  let z := z + 719468 in
  let era := z / 146097 in
  let doe := z - era * 146097 in
  let yoe := (doe - doe / 1460 + doe / 36524 - doe / 146096) / 365 in
  let doy := doe - (365 * yoe + yoe / 4 - yoe / 100) in
  let mp := (5 * doy + 2) / 153 in
  let d := doy - (153 * mp + 2) / 5 + 1 in
  let m := if mp <? 10 then mp + 3 else mp - 9 in
  (if m <=? 2 then yoe + era * 400 + 1 else yoe + era * 400, m, d).

Definition digits (s : string) : option Z :=
  match s with
  | EmptyString => None
  | _ => if JsObject.allDigits s
         then Some (Z.of_N (JsObject.decimalValue 0 s)) else None
  end.

(** Midnight UTC of a date whose month is 1..12 and day 1..31. *)
Definition midnight (y m d : Z) : option Z :=
  if (1 <=? m) && (m <=? 12) && (1 <=? d) && (d <=? 31)
  then Some (daysFromCivil y m d * msPerDay)
  else None.

(** The [Date] parser on the two date-only forms the examples use: the ISO
    form [YYYY-MM-DD], and the form [M/D/YYYY] that engines read month
    first whatever the locale.  Other strings are outside these hosts and
    read as invalid. *)
Definition parse (s : string) : option Z :=
  match splitChar "-" s with
  | [y; m; d] =>
      if ((String.length y =? 4) && (String.length m =? 2)
          && (String.length d =? 2))%nat
      then match digits y, digits m, digits d with
           | Some y, Some m, Some d => midnight y m d
           | _, _, _ => None
           end
      else None
  | _ =>
      match splitChar "/" s with
      | [m; d; y] =>
          match digits m, digits d, digits y with
          | Some m, Some d, Some y => midnight y m d
          | _, _, _ => None
          end
      | _ => None
      end
  end.

Definition decimal (n : Z) : string :=
  DecimalString.NilZero.string_of_uint (N.to_uint (Z.to_N n)).

Definition twoDigits (n : Z) : string :=
  if n <? 10 then "0" ++ decimal n else decimal n.

(** [toLocaleDateString] under en-US: month/day/year, unpadded. *)
Definition formatUS (t : Z) : string :=
  let '(y, m, d) := civilFromDays (t / msPerDay) in
  decimal m ++ "/" ++ decimal d ++ "/" ++ decimal y.

(** [toLocaleDateString] under en-GB: day/month/year, two digits each. *)
Definition formatGB (t : Z) : string :=
  let '(y, m, d) := civilFromDays (t / msPerDay) in
  twoDigits d ++ "/" ++ twoDigits m ++ "/" ++ decimal y.

Definition enUS : Host := mkHost parse formatUS.
Definition enGB : Host := mkHost parse formatGB.

End Hosts.

(** Every character of a string passes a test. *)
Fixpoint allChars (p : ascii -> bool) (s : string) : bool :=
  match s with
  | EmptyString => true
  | String c s' => p c && allChars p s'
  end.

(** A character the lazy group runs over before its closing bracket. *)
Definition isLabelChar (c : ascii) : bool :=
  negb (Ascii.eqb c "]") && negb (isLineTerminator c).

(** What it is for a line to match [/^#{1,4}\s+\[(.+?)\]/] with [label]
    as group 1: 1 to 4 hashes, white space, an opening bracket, the label
    and a closing bracket; the label is one dot followed by dots that are
    no closing bracket, so that its bracket is the first that can close. *)
Definition matchesHeading (line label : string) : Prop :=
  exists hashes spaces c label' rest,
    line = (hashes ++ spaces ++ "[" ++ label ++ "]" ++ rest)%string
    /\ label = String c label'
    /\ allChars isHash hashes = true
    /\ 1 <= String.length hashes <= 4
    /\ allChars isSpace spaces = true
    /\ 1 <= String.length spaces
    /\ isLineTerminator c = false
    /\ allChars isLabelChar label' = true.

(** The characters of a string that pass a test. *)
Fixpoint keepChars (p : ascii -> bool) (s : string) : string :=
  match s with
  | EmptyString => EmptyString
  | String c s' => if p c then String c (keepChars p s') else keepChars p s'
  end.

(** Day numbers and civil dates agree on [count] days from day [first]. *)
Definition calendarAgrees (first : Z) (count : nat) : bool :=
  forallb
    (fun k =>
       let n := (first + Z.of_nat k)%Z in
       let '(y, m, d) := Hosts.civilFromDays n in
       (Hosts.daysFromCivil y m d =? n)%Z
       && (1 <=? m)%Z && (m <=? 12)%Z && (1 <=? d)%Z && (d <=? 31)%Z)
    (seq 0 count).

(* ================================================================== *)
(** ** Notions the statements use *)
(* ================================================================== *)

(** How often a key occurs in a list of keys. *)
Definition occurrences (keys : list string) (key : string) : N :=
  N.of_nat (count_occ string_dec keys key).

(** The keys that are array indices, and the index of one. *)
Definition isIndex (key : string) : bool := isSome (JsObject.arrayIndex key).

Definition indexOf (key : string) : N :=
  match JsObject.arrayIndex key with Some i => i | None => 0 end.

(** The keys created at the end of an object: recorded, and no index. *)
Definition plainKey (key : string) : bool :=
  JsObject.recorded key && negb (isIndex key).

(** The distinct elements of a list in the order they are first met. *)
Fixpoint firstOccurrences (l : list string) : list string :=
  match l with
  | [] => []
  | x :: rest =>
      x :: filter (fun y => negb (String.eqb y x)) (firstOccurrences rest)
  end.

(** One count for every key that gets a property, each the number of
    occurrences of the key; the index keys first, in ascending order of
    index, then the other keys in the order they are first met. *)
Definition countsOf (keys : list string) (o : JsObject.t) : Prop :=
  NoDup (map fst o)
  /\ (forall key,
        JsObject.own o key
        = if JsObject.recorded key && (0 <? count_occ string_dec keys key)%nat
          then Some (occurrences keys key) else None)
  /\ exists indices,
       map fst o = indices ++ firstOccurrences (filter plainKey keys)
       /\ Forall (fun k => isIndex k = true) indices
       /\ StronglySorted (fun a b => (indexOf a <= indexOf b)%N) indices.

(** The topics of a collection, one per article. *)
Definition topics (data : list NewsArticle) : list string := map topic data.

(** The percentages of a distribution added up. *)
Definition percentageSum (dist : list TopicDistribution) : Z :=
  fold_right Z.add 0%Z
    (map (fun e => match td_percentage e with Some p => p | None => 0%Z end)
         dist).

(** [Math.round((count / total) * 100)] is the exact half-up rounding for
    every count from 1 to [total] and every total from 1 to [bound]. *)
Definition agreesUpTo (bound : nat) : bool :=
  forallb
    (fun total =>
       forallb
         (fun count =>
            match JsNumber.percentageOf (N.of_nat count) total with
            | Some p => (p =? JsNumber.exactHalfUp (N.of_nat count) total)%Z
            | None => false
            end)
         (seq 1 total))
    (seq 1 bound).

(** Forty articles, 23 of them on AI. *)
Definition topicArticle (t : string) : NewsArticle :=
  mkNewsArticle 0 "" "" t "" "".

Definition fortyArticles : list NewsArticle :=
  repeat (topicArticle "AI") 23 ++ repeat (topicArticle "Other") 17.

(** The titles of the specification's word-frequency example. *)
Definition titled (t : string) : NewsArticle :=
  mkNewsArticle 0 t "" "Other" "" "".

Definition exampleTitles : list NewsArticle :=
  [titled "AI raises funding for AI"; titled "AI product launch"].

(** *** Dates: what an article's bucket shows and what it is worth *)

(** The display string an article is grouped under. *)
Definition displayOf (host : Host) (article : NewsArticle) : string :=
  displayDate host (published_date article).

(** The time value of an article's [published_date]. *)
Definition timeOf (host : Host) (article : NewsArticle) : option Z :=
  Date_parse host (published_date article).

(** The display strings of a collection. *)
Definition displays (host : Host) (data : list NewsArticle) : list string :=
  map (displayOf host) data.

(** The display string [d] reads back as a date. *)
Definition readable (host : Host) (d : string) : bool :=
  isSome (Date_parse host d).

(** On the articles of [data] the host reads its display strings back in
    the order of the dates they came from: an earlier read-back value
    means an earlier [published_date], and equal read-back values mean the
    same display string. *)
Definition readsBack (host : Host) (data : list NewsArticle) : bool :=
  forallb
    (fun a =>
       forallb
         (fun b =>
            match timeOf host a, timeOf host b,
                  Date_parse host (displayOf host a),
                  Date_parse host (displayOf host b) with
            | Some ta, Some tb, Some sa, Some sb =>
                implb (sa <? sb)%Z (ta <? tb)%Z
                && implb (sa =? sb)%Z
                         (String.eqb (displayOf host a) (displayOf host b))
            | _, _, _, _ => false
            end)
         data)
    data.

(** Bucket [p] holds only articles published before those of bucket [q]. *)
Definition chronological (host : Host) (data : list NewsArticle)
           (p q : ArticlesByDate) : Prop :=
  forall a b ta tb,
    In a data -> In b data ->
    displayOf host a = abd_date p -> displayOf host b = abd_date q ->
    timeOf host a = Some ta -> timeOf host b = Some tb ->
    (ta < tb)%Z.

(** Bucket [p] is sorted no later than bucket [q]: both dates read back,
    the first to the smaller or the same time value. *)
Definition readsNoLater (host : Host) (p q : ArticlesByDate) : Prop :=
  exists tp tq,
    stamp host p = Some tp /\ stamp host q = Some tq /\ (tp <= tq)%Z.

(** Articles of 2 January and 1 February 2024. *)
Definition dated (d : string) : NewsArticle :=
  mkNewsArticle 0 "" "" "Other" d "".

Definition winterArticles : list NewsArticle :=
  [dated "2024-01-02"; dated "2024-02-01"; dated "2024-01-02"].

(* ================================================================== *)
(** ** More of the pages: badges, what is rendered, the dashboard's load *)
(* ================================================================== *)

(** The string a category is at run time. *)
Definition categoryName (c : Category) : string :=
  match c with
  | AI => "AI"
  | Funding => "Funding"
  | Product => "Product"
  | Regulation => "Regulation"
  | Other => "Other"
  end.

(** [getCategoryBadgeClass], the same in [pages/index.tsx] and in
    [components/NewsCard.tsx]. *)
Definition getCategoryBadgeClass (category : Category) : string :=
  let baseClass := "badge " in
  match category with
  | AI => baseClass ++ "badge-ai"
  | Funding => baseClass ++ "badge-funding"
  | Product => baseClass ++ "badge-product"
  | Regulation => baseClass ++ "badge-regulation"
  | Other => baseClass ++ "badge-other"
  end%string.

(** What the monitor page renders of its state: the error box
    ([{error && ...}]), the grid ([articles.length > 0]) and the empty
    state ([!loading && articles.length === 0 && !error]). *)
Definition showsErrorBox (st : PageState) : bool := truthy (page_error st).

Definition showsGrid (st : PageState) : bool :=
  (0 <? length (page_articles st))%nat.

Definition showsEmptyState (st : PageState) : bool :=
  negb (page_loading st) && (length (page_articles st) =? 0)%nat
  && negb (truthy (page_error st)).

(** What the awaited Supabase query gives [fetchDashboardData]: an answer
    [{ data, error }], the error with its message, or a thrown exception
    with its [message], if it has one. *)
Inductive QueryOutcome :=
  | Answered (data : option (list NewsArticle)) (error : option string)
  | Threw (message : option string).

(** The state of the dashboard: the articles, the four analytics, and the
    two flags. *)
Record DashboardState := mkDashboardState {
  d_articles : list NewsArticle;
  d_analytics : Analytics;
  d_loading : bool;
  d_error : option string
}.

(** The state the component starts in. *)
Definition initialDashboard : DashboardState :=
  mkDashboardState [] (mkAnalytics (Some []) (Some []) (Some []) []) true None.

(** [data || []]. *)
Definition orEmpty (data : option (list NewsArticle)) : list NewsArticle :=
  match data with Some l => l | None => [] end.

(** [fetchDashboardData] once the query settled.  An answer with an error
    is thrown into the [catch], which stores the message; an answer
    without one stores the articles, their analytics and no error; the
    [finally] ends the loading. *)
Definition fetchDashboardData (host : Host) (st : DashboardState)
           (outcome : QueryOutcome) : DashboardState :=
  match outcome with
  | Answered data None =>
      mkDashboardState (orEmpty data) (processAnalytics host (orEmpty data))
                       false None
  | Answered _ (Some message) =>
      mkDashboardState (d_articles st) (d_analytics st) false (Some message)
  | Threw message =>
      mkDashboardState (d_articles st) (d_analytics st) false message
  end.

(** The three things the dashboard can render: the spinner while loading,
    the error panel for a truthy error, the dashboard otherwise. *)
Inductive DashboardView :=
  | Spinner
  | ErrorPanel (message : string)
  | Charts (articles : list NewsArticle) (analytics : Analytics).

Definition dashboardView (st : DashboardState) : DashboardView :=
  if d_loading st then Spinner
  else match d_error st with
       | Some (String c m) => ErrorPanel (String c m)
       | _ => Charts (d_articles st) (d_analytics st)
       end.

(** The states the dashboard can be in: the initial one, and those a
    settled load leads to. *)
Inductive reachableDashboard (host : Host) : DashboardState -> Prop :=
  | reach_initial : reachableDashboard host initialDashboard
  | reach_load st outcome :
      reachableDashboard host st ->
      reachableDashboard host (fetchDashboardData host st outcome).

(* ================================================================== *)
(** ** Further notions the statements use *)
(* ================================================================== *)

(** The runs of the handler: the reply with the calls made on the way. *)
Inductive HandlerRun (req : Request) (env : Env) (api : FireCrawl)
  : Reply -> list Call -> Prop :=
  | run_not_post :
      isMethod (method req) "POST" = false ->
      HandlerRun req env api
        (mkReply 405 (mkScrapeResponse false None (Some "Method not allowed")))
        []
  | run_no_key :
      isMethod (method req) "POST" = true ->
      truthy (FIRECRAWL_API_KEY env) = false ->
      HandlerRun req env api
        (mkReply 500 (mkScrapeResponse false None
           (Some "FireCrawl API key not configured. Please add FIRECRAWL_API_KEY to your environment variables.")))
        []
  | run_extract_rejected key :
      isMethod (method req) "POST" = true ->
      FIRECRAWL_API_KEY env = Some key -> truthy (Some key) = true ->
      postExtract api key = Rejected ->
      HandlerRun req env api mockReply [mkCall ExtractEndpoint true]
  | run_extracted key response :
      isMethod (method req) "POST" = true ->
      FIRECRAWL_API_KEY env = Some key -> truthy (Some key) = true ->
      postExtract api key = Resolved response ->
      extractedArticles response <> [] ->
      HandlerRun req env api
        (mkReply 200 (mkScrapeResponse true
                        (Some (extractedArticles response)) None))
        [mkCall ExtractEndpoint false]
  | run_scrape_rejected key response :
      isMethod (method req) "POST" = true ->
      FIRECRAWL_API_KEY env = Some key -> truthy (Some key) = true ->
      postExtract api key = Resolved response ->
      extractedArticles response = [] ->
      postScrape api key = Rejected ->
      HandlerRun req env api mockReply
        [mkCall ExtractEndpoint false; mkCall ScrapeEndpoint true]
  | run_scraped key response scrapeResponse markdown :
      isMethod (method req) "POST" = true ->
      FIRECRAWL_API_KEY env = Some key -> truthy (Some key) = true ->
      postExtract api key = Resolved response ->
      extractedArticles response = [] ->
      postScrape api key = Resolved scrapeResponse ->
      scrapedMarkdown scrapeResponse = Some markdown ->
      parseHeadlinesFromMarkdown markdown <> [] ->
      HandlerRun req env api
        (mkReply 200 (mkScrapeResponse true
                        (Some (parseHeadlinesFromMarkdown markdown)) None))
        [mkCall ExtractEndpoint false; mkCall ScrapeEndpoint false]
  | run_nothing_scraped key response scrapeResponse :
      isMethod (method req) "POST" = true ->
      FIRECRAWL_API_KEY env = Some key -> truthy (Some key) = true ->
      postExtract api key = Resolved response ->
      extractedArticles response = [] ->
      postScrape api key = Resolved scrapeResponse ->
      (scrapedMarkdown scrapeResponse = None
       \/ exists markdown,
            scrapedMarkdown scrapeResponse = Some markdown
            /\ parseHeadlinesFromMarkdown markdown = []) ->
      HandlerRun req env api mockReply
        [mkCall ExtractEndpoint false; mkCall ScrapeEndpoint false].

(** An article as the pages can show it: a headline that is not empty and
    a company that, when present, is not the empty string. *)
Definition wellFormed (a : Article) : Prop :=
  headline a <> EmptyString /\ company a <> Some EmptyString.

(** The articles of a reply; none when the field is absent. *)
Definition repliedArticles (r : Reply) : list Article :=
  match articles (body r) with Some l => l | None => [] end.

(** A character of a ranked word: a lower-case letter, a digit or the
    underscore. *)
Definition isLowerWordChar (c : ascii) : bool :=
  let n := nat_of_ascii c in
  (((48 <=? n) && (n <=? 57)) || ((97 <=? n) && (n <=? 122)) || (n =? 95))%nat.

(** The counts of an object added up. *)
Definition totalCount (o : JsObject.t) : N :=
  fold_right N.add 0%N (map snd o).

(** The counts of a distribution, of a time series and of a word ranking
    added up. *)
Definition topicTotal (dist : list TopicDistribution) : N :=
  fold_right N.add 0%N (map td_count dist).

Definition seriesTotal (series : list ArticlesByDate) : N :=
  fold_right N.add 0%N (map abd_count series).

(** An article whose date the host cannot read. *)
Definition undated : NewsArticle := mkNewsArticle 0 "" "" "Other" "soon" "".

(* ================================================================== *)
(** * Properties *)
(* ================================================================== *)

(** ** Substring containment *)

Lemma startsWith_app (p rest : string) : startsWith (p ++ rest)%string p = true.
Proof.
  induction p as [|c p IH]; simpl.
  - destruct rest; reflexivity.
  - rewrite Ascii.eqb_refl. exact IH.
Qed.

Lemma startsWith_includes (s sub : string) :
  startsWith s sub = true -> includes s sub = true.
Proof. intros H. destruct s; cbn [includes]; rewrite H; reflexivity. Qed.

Lemma startsWith_inv (s p : string) :
  startsWith s p = true -> exists rest, s = (p ++ rest)%string.
Proof.
  revert s; induction p as [|c p IH]; intros s H.
  - exists s. reflexivity.
  - destruct s as [|b s]; simpl in H; [discriminate|].
    apply andb_prop in H. destruct H as [Hc Hs].
    apply Ascii.eqb_eq in Hc. subst b.
    destruct (IH _ Hs) as [rest ->]. exists rest. reflexivity.
Qed.

(** [includes] is the existence of an occurrence. *)
Lemma includes_iff (s sub : string) :
  includes s sub = true <-> exists pre post, s = (pre ++ sub ++ post)%string.
Proof.
  split.
  - induction s as [|c s IH]; cbn [includes]; intros H.
    + rewrite orb_false_r in H. apply startsWith_inv in H.
      destruct H as [rest H]. exists EmptyString, rest. exact H.
    + apply orb_prop in H. destruct H as [H|H].
      * apply startsWith_inv in H. destruct H as [rest H].
        exists EmptyString, rest. exact H.
      * destruct (IH H) as (pre & post & ->).
        exists (String c pre), post. reflexivity.
  - intros (pre & post & ->).
    induction pre as [|c pre IH]; cbn [includes append].
    + apply startsWith_includes, startsWith_app.
    + rewrite IH. apply orb_true_r.
Qed.

Lemma string_app_assoc (a b c : string) : ((a ++ b) ++ c = a ++ (b ++ c))%string.
Proof. induction a as [|x a IH]; simpl; [reflexivity | now rewrite IH]. Qed.

(** A headline that contains a keyword contains what the keyword contains. *)
Lemma includes_trans (s mid sub : string) :
  includes s mid = true -> includes mid sub = true -> includes s sub = true.
Proof.
  rewrite !includes_iff.
  intros (p1 & q1 & ->) (p2 & q2 & ->).
  exists (p1 ++ p2)%string, (q2 ++ q1)%string.
  now rewrite !string_app_assoc.
Qed.

(** ** The classifier *)

Lemma groupMatches_AI (lower : string) :
  groupMatches lower (AI, ["ai"; "artificial intelligence"; "machine learning"; "chatgpt"; "openai"])
  = (includes lower "ai" || includes lower "artificial intelligence"
     || includes lower "machine learning" || includes lower "chatgpt"
     || includes lower "openai").
Proof. unfold groupMatches; simpl. now rewrite orb_false_r, !orb_assoc. Qed.

Lemma groupMatches_Funding (lower : string) :
  groupMatches lower (Funding, ["funding"; "investment"; "raises"; "series"; "venture"])
  = (includes lower "funding" || includes lower "investment"
     || includes lower "raises" || includes lower "series"
     || includes lower "venture").
Proof. unfold groupMatches; simpl. now rewrite orb_false_r, !orb_assoc. Qed.

Lemma groupMatches_Product (lower : string) :
  groupMatches lower (Product, ["product"; "launch"; "release"; "update"; "feature"])
  = (includes lower "product" || includes lower "launch"
     || includes lower "release" || includes lower "update"
     || includes lower "feature").
Proof. unfold groupMatches; simpl. now rewrite orb_false_r, !orb_assoc. Qed.

Lemma groupMatches_Regulation (lower : string) :
  groupMatches lower (Regulation, ["regulation"; "policy"; "government"; "legal"; "lawsuit"])
  = (includes lower "regulation" || includes lower "policy"
     || includes lower "government" || includes lower "legal"
     || includes lower "lawsuit").
Proof. unfold groupMatches; simpl. now rewrite orb_false_r, !orb_assoc. Qed.

(** The chain of [if]s is the first match over the ordered groups. *)
Lemma categorizeHeadline_firstMatch (headline : string) :
  categorizeHeadline headline
  = firstMatch (toLowerCase headline) keywordGroups.
Proof.
  unfold categorizeHeadline, keywordGroups, firstMatch.
  rewrite groupMatches_AI, groupMatches_Funding, groupMatches_Product,
    groupMatches_Regulation.
  reflexivity.
Qed.

(** What a first match is, for any ordered list of groups. *)
Lemma firstMatch_least (lower : string) (groups : list (Category * list string))
      (i : nat) (g : Category * list string) :
  nth_error groups i = Some g ->
  groupMatches lower g = true ->
  (forall j g', j < i -> nth_error groups j = Some g' ->
                groupMatches lower g' = false) ->
  firstMatch lower groups = fst g.
Proof.
  revert i; induction groups as [|g0 groups IH]; intros i Hi Hg Hlt.
  - destruct i; discriminate.
  - destruct i as [|i]; simpl in *.
    + injection Hi as ->. now rewrite Hg.
    + rewrite (Hlt 0 g0); [|lia|reflexivity].
      apply (IH i); auto.
      intros j g' Hj Hn. apply (Hlt (S j) g'); [lia|exact Hn].
Qed.

Lemma firstMatch_none (lower : string) (groups : list (Category * list string)) :
  (forall g, In g groups -> groupMatches lower g = false) ->
  firstMatch lower groups = Other.
Proof.
  induction groups as [|g0 groups IH]; intros H; simpl.
  - reflexivity.
  - rewrite (H g0) by (left; reflexivity).
    apply IH. intros g Hg. apply H. right. exact Hg.
Qed.

Lemma firstMatch_some (lower : string) (groups : list (Category * list string)) :
  (exists g, In g groups /\ groupMatches lower g = true) ->
  exists g, In g groups /\ firstMatch lower groups = fst g.
Proof.
  induction groups as [|g0 groups IH]; intros (g & Hin & Hg).
  - destruct Hin.
  - simpl. destruct (groupMatches lower g0) eqn:E0.
    + exists g0. split; [left; reflexivity | reflexivity].
    + destruct Hin as [->|Hin]; [congruence|].
      destruct IH as (g1 & Hin1 & H1); [exists g; auto|].
      exists g1. split; [right; exact Hin1 | exact H1].
Qed.

(** C1. For every headline, [categorizeHeadline] returns the category of
    the matching keyword group of lowest index in the order AI, Funding,
    Product, Regulation (so with two or more matching groups the one
    tested first wins), and it returns [Other] exactly when no group has a
    keyword that is a substring of the case-folded headline. *)
Theorem categorizeHeadline_lowest_matching_group (headline : string) :
  (forall i g,
      nth_error keywordGroups i = Some g ->
      groupMatches (toLowerCase headline) g = true ->
      (forall j g', j < i -> nth_error keywordGroups j = Some g' ->
                    groupMatches (toLowerCase headline) g' = false) ->
      categorizeHeadline headline = fst g)
  /\ (categorizeHeadline headline = Other <->
      forall g, In g keywordGroups ->
                groupMatches (toLowerCase headline) g = false)
  /\ map fst keywordGroups = [AI; Funding; Product; Regulation].
Proof.
  split; [|split].
  - intros i g Hi Hg Hlt. rewrite categorizeHeadline_firstMatch.
    now apply firstMatch_least with (i := i).
  - rewrite categorizeHeadline_firstMatch. split.
    + intros HO g Hin.
      destruct (groupMatches (toLowerCase headline) g) eqn:E; [|reflexivity].
      destruct (firstMatch_some (toLowerCase headline) keywordGroups)
        as (g1 & Hin1 & H1); [exists g; auto|].
      rewrite HO in H1.
      simpl in Hin1.
      destruct Hin1 as [<-|[<-|[<-|[<-|[]]]]]; discriminate.
    + apply firstMatch_none.
  - reflexivity.
Qed.

(** A headline with keywords of the Funding, Product and Regulation
    groups, and none of the AI group. *)
Lemma categorizeHeadline_lowest_matching_group_witness :
  categorizeHeadline "Lawsuit over product launch delays Series B" = Funding.
Proof.
  apply (proj1 (categorizeHeadline_lowest_matching_group
                  "Lawsuit over product launch delays Series B")
               1 (Funding, ["funding"; "investment"; "raises"; "series"; "venture"])).
  - reflexivity.
  - vm_compute. reflexivity.
  - intros j g' Hj Hn.
    destruct j as [|j]; [|lia].
    injection Hn as <-. vm_compute. reflexivity.
Defined.

(** C2. For every headline in which exactly one keyword group has a
    keyword occurring as a substring of the case-folded headline,
    [categorizeHeadline] returns that group's category. *)
Theorem categorizeHeadline_single_group
        (headline : string) (i : nat) (g : Category * list string) :
  nth_error keywordGroups i = Some g ->
  groupMatches (toLowerCase headline) g = true ->
  (forall j g', j <> i -> nth_error keywordGroups j = Some g' ->
                groupMatches (toLowerCase headline) g' = false) ->
  categorizeHeadline headline = fst g.
Proof.
  intros Hi Hg Hother.
  rewrite categorizeHeadline_firstMatch.
  apply firstMatch_least with (i := i); auto.
  intros j g' Hj. apply Hother. lia.
Qed.

Lemma categorizeHeadline_single_group_witness :
  categorizeHeadline "Startup secures new funding" = Funding.
Proof.
  apply (categorizeHeadline_single_group "Startup secures new funding"
           1 (Funding, ["funding"; "investment"; "raises"; "series"; "venture"])).
  - reflexivity.
  - vm_compute. reflexivity.
  - intros j g' Hj Hn.
    destruct j as [|[|[|[|j]]]]; simpl in Hn;
      try (exfalso; apply Hj; reflexivity);
      try (injection Hn as <-; vm_compute; reflexivity).
    destruct j; discriminate.
Defined.

(** Containment is substring containment: the Funding keyword [raises]
    carries the AI keyword [ai], so a headline with it is never one that
    matches the Funding group alone. *)
Lemma raises_matches_AI (headline : string) :
  includes (toLowerCase headline) "raises" = true ->
  categorizeHeadline headline = AI.
Proof.
  intros H. unfold categorizeHeadline.
  assert (Hai : includes (toLowerCase headline) "ai" = true).
  { apply includes_trans with (mid := "raises"); [exact H | reflexivity]. }
  rewrite Hai. reflexivity.
Qed.

Example startup_raises_is_AI : categorizeHeadline "Startup raises $5M" = AI.
Proof. apply raises_matches_AI. reflexivity. Qed.

(** ** Company extraction *)

Lemma scanCompanies_none (headline : string) (cs : list string) :
  scanCompanies headline cs = None <->
  forall c, In c cs -> mentions headline c = false.
Proof.
  unfold mentions. induction cs as [|c0 cs IH]; simpl.
  - split; [intros _ c [] | reflexivity].
  - destruct (includes (toLowerCase headline) (toLowerCase c0)) eqn:E.
    + split; [discriminate|].
      intros H. specialize (H c0 (or_introl eq_refl)). congruence.
    + rewrite IH. split.
      * intros H c [<-|Hin]; auto.
      * intros H c Hin. apply H. right. exact Hin.
Qed.

Lemma scanCompanies_first (headline : string) (cs : list string)
      (i : nat) (c : string) :
  nth_error cs i = Some c ->
  mentions headline c = true ->
  (forall j c', j < i -> nth_error cs j = Some c' ->
                mentions headline c' = false) ->
  scanCompanies headline cs = Some c.
Proof.
  unfold mentions.
  revert i; induction cs as [|c0 cs IH]; intros i Hi Hc Hlt.
  - destruct i; discriminate.
  - destruct i as [|i]; simpl in *.
    + injection Hi as ->. now rewrite Hc.
    + rewrite (Hlt 0 c0); [|lia|reflexivity].
      apply (IH i); auto.
      intros j c' Hj Hn. apply (Hlt (S j) c'); [lia|exact Hn].
Qed.

(** C4, as the code has it.  For every headline,
    [extractCompanyFromHeadline] returns absent exactly when no name of the
    fixed list occurs in the case-folded headline; a name that is the only
    one to occur is returned; among several the first in the list order
    Microsoft, Google, Apple, ... is returned; and for the headline
    "Apple sues Google" that is "Google", which stands before "Apple". *)
Theorem extractCompany_first_in_list_order :
  (forall headline : string,
      (extractCompanyFromHeadline headline = None <->
       forall c, In c companies -> mentions headline c = false)
      /\ (forall i c,
             nth_error companies i = Some c ->
             mentions headline c = true ->
             (forall j c', j <> i -> nth_error companies j = Some c' ->
                           mentions headline c' = false) ->
             extractCompanyFromHeadline headline = Some c)
      /\ (forall i c,
             nth_error companies i = Some c ->
             mentions headline c = true ->
             (forall j c', j < i -> nth_error companies j = Some c' ->
                           mentions headline c' = false) ->
             extractCompanyFromHeadline headline = Some c))
  /\ companies = ["Microsoft"; "Google"; "Apple"; "Amazon"; "Meta"; "Tesla";
                  "OpenAI"; "Anthropic"; "SpaceX"; "Uber"; "Airbnb";
                  "Netflix"; "X"; "TikTok"; "ByteDance"]
  /\ extractCompanyFromHeadline "Apple sues Google" = Some "Google".
Proof.
  split; [|split; reflexivity].
  intros headline. unfold extractCompanyFromHeadline.
  split; [apply scanCompanies_none|split].
  - intros i c Hi Hc Hother.
    apply scanCompanies_first with (i := i); auto.
    intros j c' Hj. apply Hother. lia.
  - intros i c Hi Hc Hlt. now apply scanCompanies_first with (i := i).
Qed.

(** "Tesla sues Apple" names Apple (index 2) and Tesla (index 5). *)
Lemma extractCompany_first_in_list_order_witness :
  extractCompanyFromHeadline "Tesla sues Apple" = Some "Apple".
Proof.
  apply (proj2 (proj2 (proj1 extractCompany_first_in_list_order
                         "Tesla sues Apple")) 2 "Apple").
  - reflexivity.
  - vm_compute. reflexivity.
  - intros j c' Hj Hn.
    destruct j as [|[|j]]; [| |lia];
      injection Hn as <-; vm_compute; reflexivity.
Defined.

(** The headline of the specification's example: Google is found first. *)
Lemma apple_sues_google_is_not_Apple :
  extractCompanyFromHeadline "Apple sues Google" <> Some "Apple".
Proof. vm_compute. discriminate. Qed.

(** ** The heading pattern *)

Section HeadingPattern.

Variable p : ascii -> bool.

(** A run of characters passing [p], ended by one that does not, or by
    the end of the string. *)
Lemma countWhile_run (run rest : string) :
  allChars p run = true ->
  match rest with String c _ => p c = false | EmptyString => True end ->
  countWhile p (run ++ rest)%string = String.length run
  /\ dropWhile p (run ++ rest)%string = rest.
Proof.
  intros Hrun Hrest. induction run as [|c run IH]; simpl in *.
  - destruct rest as [|c rest]; simpl; [auto|]. now rewrite Hrest.
  - apply andb_prop in Hrun. destruct Hrun as [Hc Hrun].
    rewrite Hc. destruct (IH Hrun) as [-> ->]. auto.
Qed.

(** Every string is its run followed by what [dropWhile] leaves. *)
Lemma dropWhile_split (s : string) :
  exists run,
    s = (run ++ dropWhile p s)%string
    /\ allChars p run = true
    /\ String.length run = countWhile p s.
Proof.
  induction s as [|c s (run & Hs & Hrun & Hlen)]; simpl.
  - exists EmptyString. auto.
  - destruct (p c) eqn:E.
    + exists (String c run). simpl. rewrite E, Hrun, <- Hs, Hlen. auto.
    + exists EmptyString. auto.
Qed.

End HeadingPattern.

Lemma lazyUntilBracket_iff (s label' : string) :
  lazyUntilBracket s = Some label' <->
  exists rest,
    s = (label' ++ "]" ++ rest)%string /\ allChars isLabelChar label' = true.
Proof.
  revert label'; induction s as [|c s IH]; intros label'; simpl.
  - split; [discriminate|].
    intros (rest & H & _). destruct label'; discriminate.
  - destruct (Ascii.eqb c "]") eqn:Eb.
    + apply Ascii.eqb_eq in Eb. subst c. split.
      * intros [= <-]. exists s. auto.
      * intros (rest & H & Hall). destruct label' as [|d label']; [reflexivity|].
        simpl in H, Hall. injection H as <- _. discriminate.
    + destruct (isLineTerminator c) eqn:Et.
      * split; [discriminate|].
        intros (rest & H & Hall). destruct label' as [|d label'].
        -- simpl in H. injection H as -> _. discriminate.
        -- simpl in H, Hall. injection H as <- _.
           unfold isLabelChar in Hall. rewrite Et, andb_false_r in Hall.
           discriminate.
      * destruct (lazyUntilBracket s) as [l|] eqn:El; simpl; split.
        -- intros [= <-]. destruct (proj1 (IH l) eq_refl) as (rest & -> & Hall).
           exists rest. split; [reflexivity|].
           change (isLabelChar c && allChars isLabelChar l = true).
           unfold isLabelChar at 1. now rewrite Eb, Et, Hall.
        -- intros (rest & H & Hall). destruct label' as [|d label'].
           ++ simpl in H. injection H as -> _. discriminate.
           ++ simpl in H, Hall. injection H as <- H.
              apply andb_prop in Hall. destruct Hall as [_ Hall].
              f_equal. f_equal.
              assert (Hl : Some l = Some label') by (apply IH; exists rest; split; [exact H | exact Hall]).
              now injection Hl.
        -- discriminate.
        -- intros (rest & H & Hall). destruct label' as [|d label'].
           ++ simpl in H. injection H as -> _. discriminate.
           ++ simpl in H, Hall. injection H as <- H.
              apply andb_prop in Hall. destruct Hall as [_ Hall].
              assert (Hl : None = Some label') by (apply IH; exists rest; split; [exact H | exact Hall]).
              discriminate.
Qed.

(** [headlineMatch] finds exactly the lines that match the heading
    pattern, with the label the pattern captures. *)
Lemma headlineMatch_iff (line label : string) :
  headlineMatch line = Some label <-> matchesHeading line label.
Proof.
  unfold headlineMatch, matchesHeading. split.
  - destruct (dropWhile_split isHash line) as (hashes & Hline & Hh & Hhl).
    destruct (dropWhile_split isSpace (dropWhile isHash line))
      as (spaces & Hafter & Hs & Hsl).
    destruct ((1 <=? countWhile isHash line)
              && (countWhile isHash line <=? 4))%nat eqn:En; [|discriminate].
    apply andb_prop in En. destruct En as [En1 En4].
    apply Nat.leb_le in En1, En4.
    destruct (1 <=? countWhile isSpace (dropWhile isHash line))%nat eqn:Em;
      [|discriminate].
    apply Nat.leb_le in Em.
    destruct (dropWhile isSpace (dropWhile isHash line))
      as [|b [|c rest]] eqn:Ed; try discriminate.
    { destruct b as [[] [] [] [] [] [] [] []]; discriminate. }
    destruct (Ascii.eqb b "[") eqn:Eb.
    2:{ destruct b as [[] [] [] [] [] [] [] []]; discriminate. }
    apply Ascii.eqb_eq in Eb. subst b.
    destruct (isLineTerminator c) eqn:Et; [discriminate|].
    destruct (lazyUntilBracket rest) as [l|] eqn:El; [|discriminate].
    intros [= <-].
    apply lazyUntilBracket_iff in El. destruct El as (rest' & -> & Hall).
    exists hashes, spaces, c, l, rest'.
    rewrite Hline at 1. rewrite Hafter. simpl.
    repeat split; auto; lia.
  - intros (hashes & spaces & c & label' & rest & -> & -> & Hh & Hhl & Hs
            & Hsl & Et & Hall).
    destruct spaces as [|sp spaces]; [simpl in Hsl; lia|].
    simpl in Hs. apply andb_prop in Hs. destruct Hs as [Hsp Hs].
    assert (Hnh : isHash sp = false).
    { unfold isHash, isSpace in *.
      destruct (Ascii.eqb sp "#") eqn:E; [|reflexivity].
      apply Ascii.eqb_eq in E. subst sp. discriminate. }
    destruct (countWhile_run isHash hashes
                (String sp spaces ++ "[" ++ String c label' ++ "]" ++ rest)%string
                Hh Hnh) as [-> ->].
    replace ((1 <=? String.length hashes) && (String.length hashes <=? 4))%nat
      with true
      by (symmetry; apply andb_true_intro; split; apply Nat.leb_le; lia).
    destruct (countWhile_run isSpace (String sp spaces)
                ("[" ++ String c label' ++ "]" ++ rest)%string)
      as [-> ->]; [simpl; now rewrite Hsp | reflexivity|].
    simpl. rewrite Et.
    replace (lazyUntilBracket (label' ++ String "]" rest)%string)
      with (Some label'); [reflexivity|].
    symmetry. apply lazyUntilBracket_iff. exists rest. auto.
Qed.

(** ** Markdown headline extraction *)

Lemma parseLoop_firstn (lines : list string) (acc : list Article) :
  length acc < 5 ->
  parseLoop lines acc
  = firstn 5 (acc ++ map articleOfHeadline (qualifying lines)).
Proof.
  revert acc; induction lines as [|line lines IH]; intros acc Hacc;
    cbn [parseLoop qualifying map].
  - rewrite app_nil_r. symmetry. apply firstn_all2. lia.
  - destruct (headlineMatch line) as [h|]; [|now apply IH].
    cbn [map].
    destruct (5 <=? length (acc ++ [articleOfHeadline h]))%nat eqn:E.
    + apply Nat.leb_le in E. rewrite length_app in E. cbn [length] in E.
      replace (acc ++ articleOfHeadline h :: map articleOfHeadline (qualifying lines))
        with ((acc ++ [articleOfHeadline h]) ++ map articleOfHeadline (qualifying lines))
        by (now rewrite <- app_assoc).
      rewrite firstn_app.
      replace (5 - length (acc ++ [articleOfHeadline h])) with 0
        by (rewrite length_app; cbn [length]; lia).
      rewrite firstn_O, app_nil_r.
      symmetry. apply firstn_all2. rewrite length_app. cbn [length]. lia.
    + apply Nat.leb_gt in E. rewrite IH by exact E.
      now rewrite <- app_assoc.
Qed.

(** C7. For every markdown text, [parseHeadlinesFromMarkdown] returns the
    articles of the first 5 qualifying lines in line order: never more
    than 5, exactly 5 when 5 or more lines qualify (so with 7 or more),
    all of them when fewer than 5 qualify; lines that do not match are
    passed over, and the empty text gives the empty result. *)
Theorem parseHeadlines_first_five (markdown : string) :
  let headlines := qualifying (splitChar LF markdown) in
  parseHeadlinesFromMarkdown markdown
  = firstn 5 (map articleOfHeadline headlines)
  /\ length (parseHeadlinesFromMarkdown markdown) <= 5
  /\ (5 <= length headlines ->
      length (parseHeadlinesFromMarkdown markdown) = 5)
  /\ (length headlines < 5 ->
      parseHeadlinesFromMarkdown markdown = map articleOfHeadline headlines)
  /\ parseHeadlinesFromMarkdown "" = [].
Proof.
  intros headlines.
  assert (E : parseHeadlinesFromMarkdown markdown
              = firstn 5 (map articleOfHeadline headlines)).
  { unfold parseHeadlinesFromMarkdown. rewrite parseLoop_firstn by (simpl; lia).
    reflexivity. }
  rewrite E. repeat split.
  - rewrite length_firstn. lia.
  - intros H. rewrite length_firstn, length_map. lia.
  - intros H. apply firstn_all2. rewrite length_map. lia.
Qed.

Lemma parseHeadlines_first_five_witness :
  length (parseHeadlinesFromMarkdown
            ("# [One](u)" ++ String LF "## [Two](u)" ++ String LF "plain text"
             ++ String LF "### [Three](u)" ++ String LF "#### [Four](u)"
             ++ String LF "##### [Too deep](u)" ++ String LF "# [Five](u)"
             ++ String LF "# [Six](u)" ++ String LF "## [Seven](u)")%string) = 5.
Proof.
  apply (proj1 (proj2 (proj2 (parseHeadlines_first_five _)))).
  vm_compute. lia.
Defined.

(** ** The scrape handler *)

(** A try block that posts: the log holds a rejected call exactly when the
    block threw. *)
Lemma tryBlock_throws_iff_rejected (env : Env) (api : FireCrawl) :
  forall r log,
    tryBlock env api [] = (r, log) ->
    (existsb rejected log = true <-> r = Rejected).
Proof.
  intros r log. unfold tryBlock, bind, post, ret.
  destruct (FIRECRAWL_API_KEY env) as [[|c key]|];
    try (intros [= <- <-]; simpl; split; discriminate).
  destruct (postExtract api (String c key)) as [response|]; simpl.
  - destruct (length (extractedArticles response) =? 0)%nat.
    + destruct (postScrape api (String c key)) as [scrapeResponse|]; simpl.
      * destruct (scrapedMarkdown scrapeResponse);
          intros [= <- <-]; simpl; split; discriminate.
      * intros [= <- <-]. simpl. split; reflexivity.
    + intros [= <- <-]. simpl. split; discriminate.
  - intros [= <- <-]. simpl. split; reflexivity.
Qed.

(** The handler always sends a reply: nothing is thrown past it. *)
Lemma handler_replies (req : Request) (env : Env) (api : FireCrawl) :
  exists reply, fst (runHandler req env api) = Resolved reply.
Proof.
  unfold runHandler, handler, tryCatch, ret.
  destruct (negb (isMethod (method req) "POST")); simpl; [eauto|].
  destruct (tryBlock env api []) as [[r|] log]; simpl; eauto.
Qed.

(** C10. For every request whose method is not POST the handler replies
    with status 405, [success] false, the error "Method not allowed" and no
    articles, and it makes no external call. *)
Theorem handler_method_not_allowed
        (req : Request) (env : Env) (api : FireCrawl) :
  method req <> Some "POST" ->
  runHandler req env api
  = (Resolved (mkReply 405 (mkScrapeResponse false None
                              (Some "Method not allowed"))), []).
Proof.
  intros H. unfold runHandler, handler.
  assert (E : isMethod (method req) "POST" = false).
  { unfold isMethod. destruct (method req) as [m|]; [|reflexivity].
    destruct (String.eqb m "POST") eqn:Em; [|reflexivity].
    apply String.eqb_eq in Em. subst m. now elim H. }
  rewrite E. reflexivity.
Qed.

Lemma handler_method_not_allowed_witness :
  runHandler (mkRequest (Some "GET")) (mkEnv (Some "fc-key"))
             (mkFireCrawl (fun _ => Rejected) (fun _ => Rejected))
  = (Resolved (mkReply 405 (mkScrapeResponse false None
                              (Some "Method not allowed"))), []).
Proof.
  apply handler_method_not_allowed. simpl. discriminate.
Defined.

(** C8. Whenever an external call of the handler is rejected, the handler
    replies with status 200, [success] true and the fixed sample articles;
    [fetchNews] then shows these articles and sets no error. *)
Theorem handler_recovers_from_rejected_call
        (req : Request) (env : Env) (api : FireCrawl) (st : PageState) :
  existsb rejected (snd (runHandler req env api)) = true ->
  fst (runHandler req env api) = Resolved mockReply
  /\ status mockReply = 200
  /\ body mockReply = mkScrapeResponse true (Some generateMockData) None
  /\ fetchNews st (Some mockReply) = mkPageState generateMockData false None.
Proof.
  intros H. split; [|repeat split].
  revert H. unfold runHandler, handler, tryCatch, ret.
  destruct (negb (isMethod (method req) "POST")); simpl; [discriminate|].
  destruct (tryBlock env api []) as [r log] eqn:E.
  pose proof (tryBlock_throws_iff_rejected env api r log E) as Hiff.
  destruct r as [reply|]; simpl.
  - intros H. apply Hiff in H. discriminate.
  - reflexivity.
Qed.

(** The extract call is refused (say with a 401): the sample articles. *)
Lemma handler_recovers_from_rejected_call_witness :
  fst (runHandler (mkRequest (Some "POST")) (mkEnv (Some "fc-key"))
                  (mkFireCrawl (fun _ => Rejected) (fun _ => Rejected)))
  = Resolved mockReply.
Proof.
  apply (handler_recovers_from_rejected_call
           (mkRequest (Some "POST")) (mkEnv (Some "fc-key"))
           (mkFireCrawl (fun _ => Rejected) (fun _ => Rejected))
           (mkPageState [] true None)).
  vm_compute. reflexivity.
Defined.

(** The extract call answers without articles and the scrape call is
    refused: the sample articles again, after two calls. *)
Example handler_second_call_rejected :
  runHandler (mkRequest (Some "POST")) (mkEnv (Some "fc-key"))
             (mkFireCrawl (fun _ => Resolved (mkExtractResponse None))
                          (fun _ => Rejected))
  = (Resolved mockReply,
     [mkCall ExtractEndpoint false; mkCall ScrapeEndpoint true]).
Proof. reflexivity. Qed.

(** Without a configured key no call is made, so none can fail: the handler
    answers 500 with an error for the page to show. *)
Example handler_without_key :
  runHandler (mkRequest (Some "POST")) (mkEnv None)
             (mkFireCrawl (fun _ => Rejected) (fun _ => Rejected))
  = (Resolved (mkReply 500 (mkScrapeResponse false None
       (Some "FireCrawl API key not configured. Please add FIRECRAWL_API_KEY to your environment variables."))),
     []).
Proof. reflexivity. Qed.

(** ** Objects used as counters *)

Module JsObjectFacts.
Import JsObject.

Lemma own_none_iff (o : t) (key : string) :
  own o key = None <-> ~ In key (map fst o).
Proof.
  induction o as [|[k v] o IH]; simpl.
  - tauto.
  - destruct (String.eqb k key) eqn:E.
    + apply String.eqb_eq in E. split; [discriminate | intros H; elim H; auto].
    + apply String.eqb_neq in E. rewrite IH. tauto.
Qed.

Lemma own_some_in (o : t) (key : string) (v : N) :
  own o key = Some v -> In key (map fst o).
Proof.
  intros H. destruct (in_dec string_dec key (map fst o)) as [Hin|Hin]; auto.
  apply own_none_iff in Hin. congruence.
Qed.

Lemma in_own (o : t) (key : string) (v : N) :
  NoDup (map fst o) -> In (key, v) o -> own o key = Some v.
Proof.
  induction o as [|[k w] o IH]; simpl; intros Hnd Hin; [tauto|].
  inversion Hnd as [|? ? Hk Hnd']; subst.
  destruct Hin as [Heq|Hin].
  - injection Heq as -> ->. now rewrite String.eqb_refl.
  - destruct (String.eqb k key) eqn:E.
    + apply String.eqb_eq in E. subst k. elim Hk.
      apply in_map_iff. exists (key, v). auto.
    + auto.
Qed.

Lemma overwrite_keys (o : t) (key : string) (v : N) :
  map fst (overwrite o key v) = map fst o.
Proof.
  induction o as [|[k w] o IH]; simpl; [reflexivity|].
  destruct (String.eqb k key); simpl; [reflexivity | now rewrite IH].
Qed.

Lemma own_overwrite_same (o : t) (key : string) (n v : N) :
  own o key = Some n -> own (overwrite o key v) key = Some v.
Proof.
  induction o as [|[k w] o IH]; simpl; [discriminate|].
  destruct (String.eqb k key) eqn:E; simpl; rewrite E; auto.
Qed.

Lemma own_overwrite_other (o : t) (key key' : string) (v : N) :
  key' <> key -> own (overwrite o key v) key' = own o key'.
Proof.
  intros Hne. induction o as [|[k w] o IH]; simpl; [reflexivity|].
  destruct (String.eqb k key) eqn:E; simpl.
  - apply String.eqb_eq in E. subst k.
    destruct (String.eqb key key') eqn:E'; [|reflexivity].
    apply String.eqb_eq in E'. congruence.
  - now rewrite IH.
Qed.

Lemma own_app (o1 o2 : t) (key : string) :
  own (o1 ++ o2) key
  = match own o1 key with Some v => Some v | None => own o2 key end.
Proof.
  induction o1 as [|[k w] o1 IH]; simpl; [reflexivity|].
  destruct (String.eqb k key); auto.
Qed.

Lemma own_createIndexed (o : t) (key : string) (i v : N) (key' : string) :
  own o key = None ->
  own (createIndexed o key i v) key'
  = if String.eqb key key' then Some v else own o key'.
Proof.
  induction o as [|[k w] o IH]; simpl; intros Hnone.
  - reflexivity.
  - destruct (String.eqb k key) eqn:Ek; [discriminate|].
    destruct (arrayIndex k) as [j|]; [destruct (j <? i)%N|]; simpl;
      try reflexivity.
    rewrite IH by exact Hnone.
    destruct (String.eqb key key') eqn:E; [|reflexivity].
    apply String.eqb_eq in E. subst key'. now rewrite Ek.
Qed.

Lemma own_create (o : t) (key : string) (v : N) (key' : string) :
  own o key = None ->
  own (create o key v) key'
  = if String.eqb key key' then Some v else own o key'.
Proof.
  intros Hnone. unfold create.
  destruct (arrayIndex key) as [i|].
  - now apply own_createIndexed.
  - rewrite own_app. simpl.
    destruct (String.eqb key key') eqn:E.
    + apply String.eqb_eq in E. subst key'. now rewrite Hnone.
    + now destruct (own o key').
Qed.

Lemma createIndexed_perm (o : t) (key : string) (i v : N) :
  Permutation (map fst (createIndexed o key i v)) (key :: map fst o).
Proof.
  induction o as [|[k w] o IH]; simpl; [reflexivity|].
  destruct (arrayIndex k) as [j|]; [destruct (j <? i)%N|]; simpl;
    try reflexivity.
  rewrite IH. apply perm_swap.
Qed.

Lemma create_perm (o : t) (key : string) (v : N) :
  Permutation (map fst (create o key v)) (key :: map fst o).
Proof.
  unfold create. destruct (arrayIndex key) as [i|].
  - apply createIndexed_perm.
  - rewrite map_app. simpl. symmetry. apply Permutation_cons_append.
Qed.

(** Where an index key is created: among the index keys, in order. *)
Lemma createIndexed_order (indices plain : list string) (o : t)
      (key : string) (i v : N) :
  map fst o = indices ++ plain ->
  Forall (fun k => isIndex k = true) indices ->
  Forall (fun k => isIndex k = false) plain ->
  StronglySorted (fun a b => (indexOf a <= indexOf b)%N) indices ->
  arrayIndex key = Some i ->
  exists indices',
    map fst (createIndexed o key i v) = indices' ++ plain
    /\ Permutation indices' (key :: indices)
    /\ StronglySorted (fun a b => (indexOf a <= indexOf b)%N) indices'.
Proof.
  intros Hkeys Hidx Hplain Hsorted Hkey.
  assert (Hi : indexOf key = i) by (unfold indexOf; now rewrite Hkey).
  revert o Hkeys Hidx Hsorted.
  induction indices as [|a indices IH]; intros o Hkeys Hidx Hsorted.
  - exists [key]. simpl in Hkeys. split; [|split].
    + destruct o as [|[k w] o]; simpl in *.
      * now rewrite <- Hkeys.
      * subst plain. apply Forall_cons_iff in Hplain. destruct Hplain as [Hp _].
        unfold isIndex in Hp. destruct (arrayIndex k); [discriminate|].
        reflexivity.
    + reflexivity.
    + repeat constructor.
  - destruct o as [|[k w] o]; [discriminate|].
    simpl in Hkeys. injection Hkeys as Hk Hrest. subst k.
    apply Forall_cons_iff in Hidx. destruct Hidx as [Ha Hidx'].
    apply StronglySorted_inv in Hsorted. destruct Hsorted as [Hsorted' Hle].
    simpl. unfold isIndex in Ha.
    destruct (arrayIndex a) as [j|] eqn:Ej; [|discriminate].
    assert (Hj : indexOf a = j) by (unfold indexOf; now rewrite Ej).
    destruct (j <? i)%N eqn:Elt.
    + apply N.ltb_lt in Elt.
      destruct (IH o Hrest Hidx' Hsorted') as (indices' & Hk' & Hperm & Hs').
      exists (a :: indices'). split; [|split].
      * simpl. now rewrite Hk'.
      * rewrite Hperm. apply perm_swap.
      * constructor; [exact Hs'|].
        rewrite Forall_forall. intros x Hx.
        apply (Permutation_in _ Hperm) in Hx. destruct Hx as [<-|Hx].
        -- lia.
        -- rewrite Forall_forall in Hle. now apply Hle.
    + apply N.ltb_ge in Elt.
      exists (key :: a :: indices). split; [|split].
      * simpl. now rewrite Hrest.
      * reflexivity.
      * constructor; [now constructor|].
        constructor; [lia|].
        rewrite Forall_forall. intros x Hx.
        rewrite Forall_forall in Hle. specialize (Hle x Hx). lia.
Qed.

(** The reduce seen from its last step. *)
Lemma countInto_app (acc : t) (keys1 keys2 : list string) :
  countInto acc (keys1 ++ keys2)
  = match countInto acc keys1 with
    | Some acc' => countInto acc' keys2
    | None => None
    end.
Proof.
  revert acc; induction keys1 as [|k keys1 IH]; intros acc; simpl.
  - reflexivity.
  - destruct (bump acc k); [apply IH | reflexivity].
Qed.

Lemma countInto_snoc (keys : list string) (key : string) :
  countInto [] (keys ++ [key])
  = match countInto [] keys with
    | Some o => bump o key
    | None => None
    end.
Proof.
  rewrite countInto_app. destruct (countInto [] keys) as [o|]; [|reflexivity].
  simpl. now destruct (bump o key).
Qed.

End JsObjectFacts.

(** ** First occurrences *)

Lemma in_firstOccurrences (l : list string) (x : string) :
  In x (firstOccurrences l) <-> In x l.
Proof.
  induction l as [|y l IH]; simpl; [tauto|].
  rewrite filter_In, IH, negb_true_iff, String.eqb_neq.
  destruct (string_dec y x); [subst; tauto|].
  intuition congruence.
Qed.

Lemma firstOccurrences_snoc (l : list string) (k : string) :
  firstOccurrences (l ++ [k])
  = if in_dec string_dec k l then firstOccurrences l
    else firstOccurrences l ++ [k].
Proof.
  induction l as [|x l IH]; simpl.
  - reflexivity.
  - rewrite IH.
    destruct (in_dec string_dec k l) as [Hin|Hnin];
      destruct (string_dec x k) as [->|Hne]; try reflexivity.
    + rewrite filter_app. simpl. rewrite String.eqb_refl. simpl.
      now rewrite app_nil_r.
    + rewrite filter_app. simpl.
      assert (E : String.eqb k x = false) by (apply String.eqb_neq; congruence).
      rewrite E. reflexivity.
Qed.

Lemma NoDup_firstOccurrences (l : list string) : NoDup (firstOccurrences l).
Proof.
  induction l as [|x l IH]; simpl; constructor.
  - rewrite filter_In, String.eqb_refl. simpl. intros [_ H]. discriminate.
  - now apply NoDup_filter.
Qed.

(** ** What the reduce leaves in the object *)

Lemma count_occ_snoc (keys : list string) (k key : string) :
  count_occ string_dec (keys ++ [k]) key
  = count_occ string_dec keys key + (if string_dec k key then 1 else 0).
Proof. rewrite count_occ_app. simpl. now destruct (string_dec k key). Qed.

Lemma filter_snoc {A} (p : A -> bool) (l : list A) (x : A) :
  filter p (l ++ [x]) = filter p l ++ (if p x then [x] else []).
Proof. rewrite filter_app. simpl. now destruct (p x). Qed.

Lemma plainKey_isIndex (k : string) : plainKey k = true -> isIndex k = false.
Proof.
  unfold plainKey. intros H. apply andb_prop in H. destruct H as [_ H].
  now apply negb_true_iff in H.
Qed.

Lemma countInto_countsOf (keys : list string) :
  forall o, JsObject.countInto [] keys = Some o -> countsOf keys o.
Proof.
  induction keys as [|k keys IH] using rev_ind; intros o Hrun.
  - injection Hrun as <-. split; [constructor|split].
    + intros key. simpl. now rewrite andb_false_r.
    + exists []. repeat split; constructor.
  - rewrite JsObjectFacts.countInto_snoc in Hrun.
    destruct (JsObject.countInto [] keys) as [o0|]; [|discriminate].
    destruct (IH o0 eq_refl) as (Hnd & Hown & indices & Hkeys & Hidx & Hsorted).
    clear IH. unfold JsObject.bump in Hrun.
    destruct (String.eqb k "__proto__") eqn:Eproto.
    { (* the inherited setter takes the value and drops it *)
      injection Hrun as <-. apply String.eqb_eq in Eproto. subst k.
      split; [exact Hnd|split].
      - intros key. rewrite Hown, count_occ_snoc.
        destruct (string_dec "__proto__" key) as [<-|Hne]; [reflexivity|].
        unfold occurrences. rewrite count_occ_snoc.
        destruct (string_dec "__proto__" key); [congruence|].
        now rewrite Nat.add_0_r.
      - exists indices. rewrite filter_snoc.
        replace (plainKey "__proto__") with false by reflexivity.
        rewrite app_nil_r. auto. }
    assert (Hrec : JsObject.recorded k = true)
      by (unfold JsObject.recorded; now rewrite Eproto).
    pose proof (Hown k) as Hk. rewrite Hrec in Hk. simpl in Hk.
    destruct (JsObject.own o0 k) as [n|] eqn:Eown.
    { (* an own count is incremented where it stands *)
      injection Hrun as <-.
      destruct (0 <? count_occ string_dec keys k)%nat eqn:Epos; [|discriminate].
      injection Hk as ->. apply Nat.ltb_lt in Epos.
      assert (Hin : In k keys) by (apply (count_occ_In string_dec); lia).
      split; [now rewrite JsObjectFacts.overwrite_keys|split].
      - intros key. destruct (string_dec key k) as [->|Hne].
        + rewrite (JsObjectFacts.own_overwrite_same _ _ _ _ Eown).
          rewrite Hrec. simpl. unfold occurrences. rewrite count_occ_snoc.
          destruct (string_dec k k); [|congruence].
          replace (0 <? count_occ string_dec keys k + 1)%nat with true
            by (symmetry; apply Nat.ltb_lt; lia).
          f_equal. lia.
        + rewrite JsObjectFacts.own_overwrite_other by exact Hne.
          rewrite Hown. unfold occurrences. rewrite count_occ_snoc.
          destruct (string_dec k key); [congruence|].
          now rewrite Nat.add_0_r.
      - exists indices. rewrite JsObjectFacts.overwrite_keys, filter_snoc.
        split; [|auto].
        destruct (plainKey k) eqn:Eplain; [|now rewrite app_nil_r].
        rewrite firstOccurrences_snoc.
        destruct (in_dec string_dec k (filter plainKey keys)) as [_|Hnin];
          [exact Hkeys|].
        elim Hnin. apply filter_In. auto. }
    (* a new property is created with count 1 *)
    destruct (JsObject.inherited k); [discriminate|].
    injection Hrun as <-.
    destruct (0 <? count_occ string_dec keys k)%nat eqn:Epos; [discriminate|].
    apply Nat.ltb_ge in Epos.
    assert (Hz : count_occ string_dec keys k = 0) by lia.
    assert (Hnin : ~ In k keys) by (now apply (count_occ_not_In string_dec)).
    split; [|split].
    + apply (Permutation_NoDup (l := k :: map fst o0)).
      * symmetry. apply JsObjectFacts.create_perm.
      * constructor; [|exact Hnd]. now apply JsObjectFacts.own_none_iff.
    + intros key. rewrite JsObjectFacts.own_create by exact Eown.
      unfold occurrences. rewrite count_occ_snoc.
      destruct (String.eqb k key) eqn:E.
      * apply String.eqb_eq in E. subst key. rewrite Hrec, Hz.
        destruct (string_dec k k); [reflexivity | congruence].
      * apply String.eqb_neq in E.
        destruct (string_dec k key); [congruence|].
        rewrite Nat.add_0_r. apply Hown.
    + rewrite filter_snoc. unfold JsObject.create.
      destruct (JsObject.arrayIndex k) as [i|] eqn:Eidx.
      * assert (Eplain : plainKey k = false).
        { unfold plainKey, isIndex. rewrite Eidx. apply andb_false_r. }
        rewrite Eplain, app_nil_r.
        destruct (JsObjectFacts.createIndexed_order indices
                    (firstOccurrences (filter plainKey keys)) o0 k i 1)
          as (indices' & Hk' & Hperm & Hs'); auto.
        { rewrite Forall_forall. intros x Hx.
          apply in_firstOccurrences, filter_In in Hx.
          now apply plainKey_isIndex. }
        exists indices'. split; [exact Hk'|split; [|exact Hs']].
        rewrite Forall_forall. intros x Hx.
        apply (Permutation_in _ Hperm) in Hx. destruct Hx as [<-|Hx].
        -- unfold isIndex. now rewrite Eidx.
        -- rewrite Forall_forall in Hidx. now apply Hidx.
      * assert (Eplain : plainKey k = true).
        { unfold plainKey, isIndex. now rewrite Hrec, Eidx. }
        rewrite Eplain, firstOccurrences_snoc.
        destruct (in_dec string_dec k (filter plainKey keys)) as [Hin|_].
        { apply filter_In in Hin. tauto. }
        exists indices. rewrite map_app, Hkeys, <- app_assoc. auto.
Qed.

(** The reduce runs to the end exactly when no key names a function
    inherited from [Object.prototype]. *)
Lemma countInto_total (keys : list string) :
  (exists o, JsObject.countInto [] keys = Some o)
  <-> Forall (fun k => JsObject.countable k = true) keys.
Proof.
  induction keys as [|k keys IH] using rev_ind.
  - split; [constructor | exists []; reflexivity].
  - rewrite JsObjectFacts.countInto_snoc, Forall_app, <- IH. split.
    + intros [o Hrun].
      destruct (JsObject.countInto [] keys) as [o0|] eqn:E0; [|discriminate].
      split; [eauto|]. constructor; [|constructor].
      unfold JsObject.countable, JsObject.bump in *.
      destruct (String.eqb k "__proto__") eqn:Eproto.
      * apply String.eqb_eq in Eproto. subst k. reflexivity.
      * destruct (JsObject.own o0 k) as [n|] eqn:Eown.
        -- destruct (JsObject.inherited k) eqn:Einh; [|reflexivity].
           exfalso.
           destruct (countInto_countsOf keys o0 E0) as (_ & Hown & _).
           pose proof (JsObjectFacts.own_some_in _ _ _ Eown) as Hin0.
           specialize (Hown k). rewrite Eown in Hown.
           destruct (0 <? count_occ string_dec keys k)%nat eqn:Epos;
             [|rewrite andb_false_r in Hown; discriminate].
           apply Nat.ltb_lt in Epos.
           assert (Hin : In k keys) by (apply (count_occ_In string_dec); lia).
           assert (Hall : Forall (fun k => negb (JsObject.inherited k) = true) keys)
             by (apply IH; eauto).
           rewrite Forall_forall in Hall. specialize (Hall k Hin).
           rewrite Einh in Hall. discriminate.
        -- destruct (JsObject.inherited k); [discriminate | reflexivity].
    + intros [[o0 E0] Hk]. rewrite E0.
      apply Forall_cons_iff in Hk. destruct Hk as [Hk _].
      unfold JsObject.countable in Hk. apply negb_true_iff in Hk.
      unfold JsObject.bump. rewrite Hk.
      destruct (String.eqb k "__proto__"); [eauto|].
      destruct (JsObject.own o0 k); eauto.
Qed.

(** ** Topic distribution *)

(** Every entry of a count object counts a key that occurs. *)
Lemma countInto_entry (keys : list string) (o : JsObject.t)
      (key : string) (n : N) :
  JsObject.countInto [] keys = Some o ->
  In (key, n) o ->
  n = occurrences keys key /\ In key keys /\ JsObject.recorded key = true.
Proof.
  intros Hrun Hin.
  destruct (countInto_countsOf keys o Hrun) as (Hnd & Hown & _).
  apply (JsObjectFacts.in_own _ _ _ Hnd) in Hin.
  rewrite Hown in Hin.
  destruct (JsObject.recorded key); [|discriminate].
  destruct (0 <? count_occ string_dec keys key)%nat eqn:Epos; [|discriminate].
  apply Nat.ltb_lt in Epos. injection Hin as <-.
  repeat split. apply (count_occ_In string_dec). lia.
Qed.

(** Every key that occurs and is recorded has a property. *)
Lemma countInto_keys (keys : list string) (o : JsObject.t) (key : string) :
  JsObject.countInto [] keys = Some o ->
  (In key (map fst o) <-> In key keys /\ JsObject.recorded key = true).
Proof.
  intros Hrun.
  destruct (countInto_countsOf keys o Hrun) as (Hnd & Hown & _).
  specialize (Hown key). split.
  - intros Hin.
    destruct (JsObject.own o key) as [n|] eqn:E.
    + destruct (JsObject.recorded key); [|discriminate].
      destruct (0 <? count_occ string_dec keys key)%nat eqn:Epos; [|discriminate].
      apply Nat.ltb_lt in Epos. split; [|reflexivity].
      apply (count_occ_In string_dec). lia.
    + apply JsObjectFacts.own_none_iff in E. contradiction.
  - intros [Hin Hrec]. rewrite Hrec in Hown.
    apply (count_occ_In string_dec) in Hin.
    replace (0 <? count_occ string_dec keys key)%nat with true in Hown
      by (symmetry; apply Nat.ltb_lt; lia).
    simpl in Hown. now apply JsObjectFacts.own_some_in in Hown.
Qed.

Lemma occurrences_bounds (keys : list string) (key : string) :
  In key keys ->
  (1 <= occurrences keys key <= N.of_nat (length keys))%N.
Proof.
  intros Hin. unfold occurrences.
  apply (count_occ_In string_dec) in Hin.
  pose proof (count_occ_bound string_dec key keys). lia.
Qed.

(** C5. On the empty collection [processAnalytics] sets an empty topic
    distribution, an empty time series, an empty word frequency and an
    empty recent feed.  The percentage is computed once per counted topic,
    so never on the empty collection; whenever it is computed the divisor
    [total] is positive (and the count lies between 1 and [total]). *)
Theorem processAnalytics_empty (host : Host) :
  processAnalytics host [] = mkAnalytics (Some []) (Some []) (Some []) []
  /\ (forall data counts topic count,
         topicCounts data = Some counts ->
         In (topic, count) counts ->
         0 < length data
         /\ (1 <= count <= N.of_nat (length data))%N).
Proof.
  split; [reflexivity|].
  intros data counts topic count Hrun Hin.
  unfold topicCounts in Hrun.
  destruct (countInto_entry _ _ _ _ Hrun Hin) as (-> & Hk & _).
  pose proof (occurrences_bounds _ _ Hk) as Hb.
  rewrite length_map in Hb. split; [|exact Hb].
  destruct data; [destruct Hk | simpl; lia].
Qed.

Lemma processAnalytics_empty_witness :
  0 < length [topicArticle "AI"; topicArticle "Other"]
  /\ (1 <= 1 <= N.of_nat (length [topicArticle "AI"; topicArticle "Other"]))%N.
Proof.
  apply (proj2 (processAnalytics_empty Hosts.enUS)
               [topicArticle "AI"; topicArticle "Other"]
               [("AI", 1%N); ("Other", 1%N)] "AI" 1%N).
  - reflexivity.
  - left. reflexivity.
Defined.

(** The model of the double arithmetic gives what the machine gives. *)
Lemma machine_agrees_up_to_40 : JsNumber.machineAgreesUpTo 40 = true.
Proof. vm_compute. reflexivity. Qed.

Lemma agreesUpTo_39 : agreesUpTo 39 = true.
Proof. vm_compute. reflexivity. Qed.

(** Below 40 articles the double computation is the exact rounding. *)
Lemma percentageOf_exact_below_40 (count : N) (total : nat) :
  (1 <= count <= N.of_nat total)%N -> total < 40 ->
  JsNumber.percentageOf count total
  = Some (JsNumber.exactHalfUp count total).
Proof.
  intros Hc Ht.
  pose proof agreesUpTo_39 as H. unfold agreesUpTo in H.
  rewrite forallb_forall in H.
  specialize (H total). rewrite forallb_forall in H.
  assert (Hin : In total (seq 1 39)) by (apply in_seq; lia).
  specialize (H Hin (N.to_nat count)).
  rewrite N2Nat.id in H.
  assert (Hin' : In (N.to_nat count) (seq 1 total)) by (apply in_seq; lia).
  specialize (H Hin').
  destruct (JsNumber.percentageOf count total) as [p|]; [|discriminate].
  apply Z.eqb_eq in H. now subst p.
Qed.

(** Three keys whose counts add up to the length are all there is. *)
Lemma three_keys_cover (l : list string) (a b c : string) :
  a <> b -> a <> c -> b <> c ->
  count_occ string_dec l a + count_occ string_dec l b
  + count_occ string_dec l c = length l ->
  forall x, In x l -> x = a \/ x = b \/ x = c.
Proof.
  intros Hab Hac Hbc.
  assert (Hle : forall l, count_occ string_dec l a + count_occ string_dec l b
                          + count_occ string_dec l c <= length l).
  { clear l. induction l as [|y l IH]; simpl; [lia|].
    destruct (string_dec y a), (string_dec y b), (string_dec y c);
      subst; try congruence; lia. }
  induction l as [|y l IH]; simpl; intros Hsum x Hin; [destruct Hin|].
  pose proof (Hle l) as Hl.
  destruct (string_dec y a) as [Ea|Na], (string_dec y b) as [Eb|Nb],
           (string_dec y c) as [Ec|Nc];
    subst; try congruence; try lia;
    (destruct Hin as [<-|Hin]; [tauto | apply IH; [lia | exact Hin]]).
Qed.

(** C6, as the code has it.  For every non-empty collection whose topics
    all count, the distribution has one entry per distinct topic, with the
    number of its articles as count and, as percentage,
    [Math.round((count / total) * 100)] computed in double precision, the
    quotient rounded before the product; the groups are rounded one by
    one.  Below 40 articles this is [100 * count / total] rounded half up.
    For 10 articles with 4 on AI, 3 on Product and 3 on Funding the
    percentages are 40, 30 and 30 and add up to 100. *)
Theorem topicDistribution_percentages (data : list NewsArticle) :
  data <> [] ->
  Forall (fun k => JsObject.countable k = true) (topics data) ->
  exists dist,
    topicDistribution data = Some dist
    /\ NoDup (map td_topic dist)
    /\ (forall t, In t (map td_topic dist)
                  <-> In t (topics data) /\ JsObject.recorded t = true)
    /\ (forall e, In e dist ->
          td_count e = occurrences (topics data) (td_topic e)
          /\ td_percentage e
             = JsNumber.percentageOf (td_count e) (length data))
    /\ (length data < 40 ->
        forall e, In e dist ->
          td_percentage e
          = Some (JsNumber.exactHalfUp (td_count e) (length data)))
    /\ (length data = 10 ->
        occurrences (topics data) "AI" = 4%N ->
        occurrences (topics data) "Product" = 3%N ->
        occurrences (topics data) "Funding" = 3%N ->
        Permutation (map (fun e => (td_topic e, td_percentage e)) dist)
                    [("AI", Some 40%Z); ("Product", Some 30%Z);
                     ("Funding", Some 30%Z)]
        /\ percentageSum dist = 100%Z).
Proof.
  intros Hne Hall.
  destruct (proj2 (countInto_total (topics data)) Hall) as [counts Hrun].
  destruct (countInto_countsOf _ _ Hrun) as (Hnd & _ & _).
  assert (Htopics : forall l : JsObject.t,
             map td_topic (map (distributionEntry (length data)) l) = map fst l).
  { intros l. rewrite map_map. apply map_ext. now intros [k n]. }
  assert (Hentry : forall e,
             In e (map (distributionEntry (length data)) counts) ->
             td_count e = occurrences (topics data) (td_topic e)
             /\ In (td_topic e) (topics data)
             /\ td_percentage e
                = JsNumber.percentageOf (td_count e) (length data)).
  { intros e He. apply in_map_iff in He. destruct He as ([k n] & <- & Hin).
    destruct (countInto_entry _ _ _ _ Hrun Hin) as (-> & Hk & _).
    simpl. auto. }
  exists (map (distributionEntry (length data)) counts).
  split; [|split; [|split; [|split; [|split]]]].
  - unfold topicDistribution, topicCounts. fold (topics data).
    now rewrite Hrun.
  - now rewrite Htopics.
  - intros t. rewrite Htopics. now apply countInto_keys.
  - intros e He. destruct (Hentry e He) as (Hc & _ & Hp). auto.
  - intros Hlt e He. destruct (Hentry e He) as (Hc & Hk & Hp).
    rewrite Hp. apply percentageOf_exact_below_40; [|exact Hlt].
    rewrite Hc. pose proof (occurrences_bounds _ _ Hk) as Hb.
    unfold topics in Hb. rewrite length_map in Hb. exact Hb.
  - intros Hlen HAI HProduct HFunding.
    assert (Hcover : forall x, In x (topics data) ->
                               x = "AI" \/ x = "Product" \/ x = "Funding").
    { apply three_keys_cover; try discriminate.
      unfold occurrences in *. unfold topics at 4. rewrite length_map. lia. }
    assert (Hperm : Permutation (map fst counts) ["AI"; "Product"; "Funding"]).
    { apply NoDup_Permutation; [exact Hnd| |].
      - repeat constructor; simpl; intuition discriminate.
      - intros x. rewrite (countInto_keys _ _ x Hrun). split.
        + intros [Hx _]. destruct (Hcover x Hx) as [->|[->| ->]]; simpl; auto.
        + intros Hx. split.
          * apply (count_occ_In string_dec). unfold occurrences in *.
            simpl in Hx. destruct Hx as [<-|[<-|[<-|[]]]]; lia.
          * simpl in Hx. destruct Hx as [<-|[<-|[<-|[]]]]; reflexivity. }
    set (f := fun t : string =>
                (t, JsNumber.percentageOf (occurrences (topics data) t) 10)).
    assert (Hmap : map (fun e => (td_topic e, td_percentage e))
                       (map (distributionEntry (length data)) counts)
                   = map f (map fst counts)).
    { rewrite !map_map. apply map_ext_in. intros [k n] Hin.
      destruct (countInto_entry _ _ _ _ Hrun Hin) as (-> & _ & _).
      unfold f. simpl. now rewrite Hlen. }
    assert (Hpairs : Permutation
                       (map (fun e => (td_topic e, td_percentage e))
                            (map (distributionEntry (length data)) counts))
                       [("AI", Some 40%Z); ("Product", Some 30%Z);
                        ("Funding", Some 30%Z)]).
    { rewrite Hmap, Hperm. unfold f. simpl.
      rewrite HAI, HProduct, HFunding. reflexivity. }
    split; [exact Hpairs|].
    unfold percentageSum.
    replace (map (fun e => match td_percentage e with
                           | Some p => p | None => 0%Z end)
                 (map (distributionEntry (length data)) counts))
      with (map (fun p : string * option Z =>
                   match snd p with Some p => p | None => 0%Z end)
                (map (fun e => (td_topic e, td_percentage e))
                     (map (distributionEntry (length data)) counts)))
      by (rewrite !map_map; reflexivity).
    assert (Hsum : forall l1 l2 : list Z,
               Permutation l1 l2 ->
               fold_right Z.add 0%Z l1 = fold_right Z.add 0%Z l2).
    { intros l1 l2 HP. induction HP; simpl; lia. }
    rewrite (Hsum _ _ (Permutation_map _ Hpairs)). reflexivity.
Qed.

Lemma topicDistribution_percentages_witness :
  exists dist,
    topicDistribution
      (repeat (topicArticle "AI") 4 ++ repeat (topicArticle "Product") 3
       ++ repeat (topicArticle "Funding") 3) = Some dist
    /\ percentageSum dist = 100%Z.
Proof.
  destruct (topicDistribution_percentages
              (repeat (topicArticle "AI") 4 ++ repeat (topicArticle "Product") 3
               ++ repeat (topicArticle "Funding") 3))
    as (dist & Hrun & _ & _ & _ & _ & Hten).
  - discriminate.
  - repeat constructor.
  - exists dist. split; [exact Hrun|].
    now apply Hten.
Defined.

(** Three topics with one article each: 33, 33 and 33, adding up to 99. *)
Example thirds_add_up_to_99 :
  option_map percentageSum
    (topicDistribution [topicArticle "AI"; topicArticle "Funding";
                        topicArticle "Product"]) = Some 99%Z.
Proof. vm_compute. reflexivity. Qed.

(** With 23 of 40 articles on AI the share is 57.5 percent; the double
    product is 57.49999999999999 and [Math.round] gives 57, not 58. *)
Lemma percentage_of_23_in_40 :
  exists dist e,
    topicDistribution fortyArticles = Some dist
    /\ In e dist
    /\ td_topic e = "AI" /\ td_count e = 23%N
    /\ td_percentage e = Some 57%Z
    /\ JsNumber.exactHalfUp (td_count e) (length fortyArticles) = 58%Z
    /\ td_percentage e
       <> Some (JsNumber.exactHalfUp (td_count e) (length fortyArticles)).
Proof.
  eexists. eexists. split; [vm_compute; reflexivity|].
  split; [left; reflexivity|].
  repeat split. vm_compute. discriminate.
Qed.

(** ** Splitting at non-word characters *)

(** The pieces are made of word characters, and they are the word
    characters of the string, in order. *)
Lemma splitNonWord_pieces (s : string) :
  Forall (fun piece => allChars isWordChar piece = true) (splitNonWord s)
  /\ String.concat "" (splitNonWord s) = keepChars isWordChar s.
Proof.
  induction s as [|c s [IHall IHcat]]; simpl.
  - split; [repeat constructor | reflexivity].
  - destruct (isWordChar c) eqn:Ec.
    + destruct (splitNonWord s) as [|piece pieces] eqn:Es.
      * split; [repeat constructor; simpl; now rewrite Ec|].
        simpl in IHcat. now rewrite <- IHcat.
      * apply Forall_cons_iff in IHall. destruct IHall as [Hp Hps].
        split.
        -- constructor; [simpl; now rewrite Ec, Hp | exact Hps].
        -- rewrite <- IHcat. destruct pieces; reflexivity.
    + assert (Hskip : Forall (fun piece => allChars isWordChar piece = true)
                             (EmptyString :: splitNonWord s)
                      /\ String.concat "" (EmptyString :: splitNonWord s)
                         = keepChars isWordChar s).
      { split; [now constructor|].
        rewrite <- IHcat. simpl. now destruct (splitNonWord s). }
      destruct s as [|c' s']; [exact Hskip|].
      destruct (isWordChar c'); [exact Hskip | auto].
Qed.

Example splitNonWord_title :
  splitNonWord (toLowerCase "OpenAI's GPT-5: what's new?")
  = ["openai"; "s"; "gpt"; "5"; "what"; "s"; "new"; ""].
Proof. reflexivity. Qed.

(** ** The stable sort *)

Module JsSortFacts.
Import JsSort.

Section Facts.
Context {A : Type}.
Variable before : A -> A -> bool.

Lemma insert_perm (x : A) (l : list A) :
  Permutation (insert before x l) (x :: l).
Proof.
  induction l as [|y l IH]; simpl; [reflexivity|].
  destruct (before x y); [reflexivity|].
  rewrite IH. apply perm_swap.
Qed.

Lemma sort_perm (l : list A) : Permutation (sort before l) l.
Proof.
  induction l as [|x l IH]; simpl; [reflexivity|].
  rewrite insert_perm. now constructor.
Qed.

Hypothesis before_total : forall a b, before a b = true \/ before b a = true.
Hypothesis before_trans :
  forall a b c, before a b = true -> before b c = true -> before a c = true.

Lemma insert_sorted (x : A) (l : list A) :
  StronglySorted (fun a b => before a b = true) l ->
  StronglySorted (fun a b => before a b = true) (insert before x l).
Proof.
  induction l as [|y l IH]; simpl; intros Hs.
  - repeat constructor.
  - apply StronglySorted_inv in Hs. destruct Hs as [Hs Hy].
    destruct (before x y) eqn:E.
    + constructor; [now constructor|].
      constructor; [exact E|].
      rewrite Forall_forall in *. intros z Hz.
      apply before_trans with (b := y); auto.
    + constructor; [now apply IH|].
      rewrite Forall_forall in *. intros z Hz.
      apply (Permutation_in _ (insert_perm x l)) in Hz.
      destruct Hz as [<-|Hz]; [|now apply Hy].
      destruct (before_total x y) as [H|H]; [congruence | exact H].
Qed.

Lemma sort_sorted (l : list A) :
  StronglySorted (fun a b => before a b = true) (sort before l).
Proof.
  induction l as [|x l IH]; simpl; [constructor | now apply insert_sorted].
Qed.

End Facts.

(** Stability: elements that tie with one another keep their order. *)
Lemma sort_stable {A} (before : A -> A -> bool) (tied : A -> bool) :
  (forall x y, tied x = true -> tied y = true -> before x y = true) ->
  forall l, filter tied (sort before l) = filter tied l.
Proof.
  intros Htied.
  assert (Hins : forall x l,
             filter tied (insert before x l)
             = if tied x then x :: filter tied l else filter tied l).
  { intros x l. induction l as [|y l IH]; simpl.
    - reflexivity.
    - destruct (before x y) eqn:E; simpl.
      + reflexivity.
      + rewrite IH. destruct (tied x) eqn:Ex; [|reflexivity].
        destruct (tied y) eqn:Ey; [|reflexivity].
        rewrite (Htied x y Ex Ey) in E. discriminate. }
  induction l as [|x l IH]; simpl; [reflexivity|].
  rewrite Hins, IH. reflexivity.
Qed.

End JsSortFacts.

Lemma StronglySorted_weaken {A} (R R' : A -> A -> Prop) (l : list A) :
  (forall a b, R a b -> R' a b) ->
  StronglySorted R l -> StronglySorted R' l.
Proof.
  intros Himp Hs. induction Hs as [|a l _ IH Hfa]; constructor; auto.
  rewrite Forall_forall in *. auto.
Qed.

(** ** Word frequency *)

Lemma in_firstn {A} (n : nat) (l : list A) (x : A) :
  In x (firstn n l) -> In x l.
Proof.
  intros H. rewrite <- (firstn_skipn n l). apply in_or_app. now left.
Qed.

Lemma in_words (data : list NewsArticle) (w : string) :
  In w (words data) <->
  (exists article,
      In article data
      /\ In w (splitNonWord (toLowerCase (title article))))
  /\ 2 < String.length w /\ isStopword w = false.
Proof.
  unfold words, keepWord.
  rewrite filter_In, in_flat_map, andb_true_iff, negb_true_iff, Nat.ltb_lt.
  tauto.
Qed.

(** A word of two letters is never counted. *)
Lemma short_word_not_ranked (data : list NewsArticle)
      (top : list WordFrequency) (e : WordFrequency) :
  wordFrequency data = Some top -> In e top -> 2 < String.length (wf_word e).
Proof.
  unfold wordFrequency, wordCounts. intros Hrun Hin.
  destruct (JsObject.countInto [] (words data)) as [counts|] eqn:E;
    [|discriminate].
  assert (Htop : top = firstn 5 (JsSort.sort notFewer (map wordEntry counts)))
    by (unfold option_map in Hrun; congruence).
  rewrite Htop in Hin. apply in_firstn in Hin.
  apply (Permutation_in _ (JsSortFacts.sort_perm notFewer _)) in Hin.
  apply in_map_iff in Hin. destruct Hin as ([w n] & <- & Hin).
  destruct (countInto_entry _ _ _ _ E Hin) as (_ & Hw & _).
  apply in_words in Hw. simpl. tauto.
Qed.

(** C3, as the code has it.  The titles are case-folded and split at the
    runs of non-word characters; tokens of length at most 2 and stopwords
    are dropped; when no token left names an inherited function, there is
    one count per distinct word, its number of occurrences over all
    titles.  The counts are listed with the words that are array indices
    first, in ascending numeric order, then the other words in the order
    they are first met; they are sorted by descending count, ties keeping
    that order, and the first 5 are taken.  For the titles
    "AI raises funding for AI" and "AI product launch" the top result is
    the word "raises" with count 1: the token "ai" has length 2. *)
Theorem wordFrequency_top_five :
  (forall data : list NewsArticle,
      Forall (fun w => JsObject.countable w = true) (words data) ->
      (forall w, In w (words data) <->
         (exists article,
             In article data
             /\ In w (splitNonWord (toLowerCase (title article))))
         /\ 2 < String.length w /\ isStopword w = false)
      /\ exists counts ranked,
           wordCounts data = Some counts
           /\ countsOf (words data) counts
           /\ Permutation ranked (map wordEntry counts)
           /\ StronglySorted (fun a b => (wf_count b <= wf_count a)%N) ranked
           /\ (forall c,
                  filter (fun e => (wf_count e =? c)%N) ranked
                  = filter (fun e => (wf_count e =? c)%N)
                           (map wordEntry counts))
           /\ wordFrequency data = Some (firstn 5 ranked))
  /\ wordFrequency exampleTitles
     = Some [mkWordFrequency "raises" 1; mkWordFrequency "funding" 1;
             mkWordFrequency "product" 1; mkWordFrequency "launch" 1].
Proof.
  split; [|reflexivity].
  intros data Hall. split; [apply in_words|].
  destruct (proj2 (countInto_total (words data)) Hall) as [counts Hrun].
  exists counts, (JsSort.sort notFewer (map wordEntry counts)).
  split; [exact Hrun|].
  split; [now apply countInto_countsOf|].
  split; [apply JsSortFacts.sort_perm|].
  split; [|split].
  - apply StronglySorted_weaken
      with (R := fun a b => notFewer a b = true).
    + intros a b H. now apply N.leb_le.
    + apply JsSortFacts.sort_sorted; unfold notFewer.
      * intros a b.
        destruct (N.le_ge_cases (wf_count b) (wf_count a)) as [H|H];
          [left | right]; now apply N.leb_le.
      * intros a b c H1 H2. apply N.leb_le in H1, H2. apply N.leb_le. lia.
  - intros c. apply JsSortFacts.sort_stable.
    intros x y Hx Hy. apply N.eqb_eq in Hx, Hy.
    unfold notFewer. apply N.leb_le. lia.
  - unfold wordFrequency, wordCounts. now rewrite Hrun.
Qed.

Lemma wordFrequency_top_five_witness :
  exists counts ranked,
    wordCounts exampleTitles = Some counts
    /\ Permutation ranked (map wordEntry counts)
    /\ wordFrequency exampleTitles = Some (firstn 5 ranked).
Proof.
  destruct (proj1 wordFrequency_top_five exampleTitles)
    as (_ & counts & ranked & Hrun & _ & Hperm & _ & _ & Htop).
  - vm_compute. repeat constructor.
  - exists counts, ranked. auto.
Defined.

(** The specification's example: the top word is not "ai". *)
Lemma example_top_word_is_not_ai :
  exists top,
    wordFrequency exampleTitles = Some top
    /\ hd_error top = Some (mkWordFrequency "raises" 1)
    /\ hd_error top <> Some (mkWordFrequency "ai" 3)
    /\ ~ In "ai" (map wf_word top).
Proof.
  eexists. split; [vm_compute; reflexivity|].
  split; [reflexivity|]. split; [discriminate|].
  simpl. intuition discriminate.
Qed.

(** A numeral is listed ahead of the words met before it. *)
Example numeral_listed_first :
  wordFrequency [titled "Google unveils 2024 roadmap"]
  = Some [mkWordFrequency "2024" 1; mkWordFrequency "google" 1;
          mkWordFrequency "unveils" 1; mkWordFrequency "roadmap" 1].
Proof. reflexivity. Qed.

(** ** The calendar of the concrete hosts *)

(** The years 2023 to 2025. *)
Lemma calendar_agrees : calendarAgrees 19358 1096 = true.
Proof. vm_compute. reflexivity. Qed.

(** ** Articles by date *)

Lemma insert_ext_in {A} (before before' : A -> A -> bool) (x : A) (l : list A) :
  (forall b, In b l -> before x b = before' x b) ->
  JsSort.insert before x l = JsSort.insert before' x l.
Proof.
  induction l as [|y l IH]; simpl; intros H; [reflexivity|].
  rewrite <- (H y) by (left; reflexivity).
  destruct (before x y); [reflexivity|].
  rewrite IH; [reflexivity|]. intros b Hb. apply H. now right.
Qed.

(** The sort only looks at the comparator on the elements it is given. *)
Lemma sort_ext_in {A} (before before' : A -> A -> bool) (l : list A) :
  (forall a b, In a l -> In b l -> before a b = before' a b) ->
  JsSort.sort before l = JsSort.sort before' l.
Proof.
  induction l as [|x l IH]; simpl; intros H; [reflexivity|].
  rewrite IH by (intros a b Ha Hb; apply H; now right).
  apply insert_ext_in. intros b Hb.
  apply (Permutation_in _ (JsSortFacts.sort_perm before' l)) in Hb.
  apply H; [now left | now right].
Qed.

Lemma StronglySorted_weaken_in {A} (R R' : A -> A -> Prop) (l : list A) :
  (forall a b, In a l -> In b l -> R a b -> R' a b) ->
  StronglySorted R l -> StronglySorted R' l.
Proof.
  intros Himp Hs. induction Hs as [|a l Hs IH Hfa]; constructor.
  - apply IH. intros x y Hx Hy. apply Himp; now right.
  - rewrite Forall_forall in *. intros x Hx.
    apply Himp; [now left | now right | now apply Hfa].
Qed.

(** In a sorted list without repeated keys, elements further on have
    another key. *)
Lemma StronglySorted_distinct {A B} (R : A -> A -> Prop) (f : A -> B)
      (l : list A) :
  StronglySorted R l -> NoDup (map f l) ->
  StronglySorted (fun a b => R a b /\ f a <> f b) l.
Proof.
  intros Hs. induction Hs as [|a l Hs IH Hfa]; simpl; intros Hnd;
    constructor.
  - apply IH. now inversion Hnd.
  - apply NoDup_cons_iff in Hnd. destruct Hnd as [Hnin _].
    rewrite Forall_forall in *. intros x Hx. split; [now apply Hfa|].
    intros E. apply Hnin. rewrite E. now apply in_map.
Qed.

(** When every bucket's date reads back, the buckets are sorted by the
    value read back. *)
Lemma sortByDate_readable (host : Host) (l : list ArticlesByDate) :
  Forall (fun b => readable host (abd_date b) = true) l ->
  sortByDate host l = Some (JsSort.sort (notLater host) l)
  /\ StronglySorted (readsNoLater host) (JsSort.sort (notLater host) l).
Proof.
  intros Hall.
  assert (Hsome : forall b, In b l -> exists t, stamp host b = Some t).
  { rewrite Forall_forall in Hall. intros b Hb. specialize (Hall b Hb).
    unfold readable, stamp in *.
    destruct (Date_parse host (abd_date b)) as [t|]; [eauto|discriminate]. }
  split.
  - unfold sortByDate.
    replace (forallb (fun a => isSome (stamp host a)) l) with true;
      [reflexivity|].
    symmetry. apply forallb_forall. intros b Hb.
    destruct (Hsome b Hb) as [t ->]. reflexivity.
  - set (key := fun b => match stamp host b with Some t => t | None => 0%Z end).
    set (before' := fun a b => (key a <=? key b)%Z).
    assert (Hext : JsSort.sort (notLater host) l = JsSort.sort before' l).
    { apply sort_ext_in. intros a b Ha Hb.
      unfold notLater, before', key.
      destruct (Hsome a Ha) as [ta ->], (Hsome b Hb) as [tb ->].
      reflexivity. }
    rewrite Hext.
    apply StronglySorted_weaken_in
      with (R := fun a b => before' a b = true).
    + intros a b Ha Hb Hab.
      apply (Permutation_in _ (JsSortFacts.sort_perm before' l)) in Ha, Hb.
      destruct (Hsome a Ha) as [ta Eta], (Hsome b Hb) as [tb Etb].
      exists ta, tb. repeat split; auto.
      unfold before', key in Hab. rewrite Eta, Etb in Hab.
      now apply Z.leb_le.
    + apply JsSortFacts.sort_sorted; unfold before'.
      * intros a b.
        destruct (Z.le_ge_cases (key a) (key b)) as [H|H];
          [left | right]; now apply Z.leb_le.
      * intros a b c H1 H2. apply Z.leb_le in H1, H2. apply Z.leb_le. lia.
Qed.

(** What the time series is.  When every display string counts and reads
    back as a date, the time series is the last 7 of the buckets, which
    are: one pair per distinct display string that [toLocaleDateString]
    gives the articles' [published_date], with the number of its articles
    as count, sorted ascending by the time value the [Date] constructor
    reads back from the display string, ties in the order of the groups.
    The buckets are in the order of the dates themselves when the host
    reads its display strings back in that order. *)
Theorem articlesByDate_buckets (host : Host) (data : list NewsArticle) :
  Forall (fun d => JsObject.countable d = true) (displays host data) ->
  Forall (fun d => readable host d = true) (displays host data) ->
  exists groups buckets,
    dateGroups host data = Some groups
    /\ countsOf (displays host data) groups
    /\ Permutation buckets (map dateEntry groups)
    /\ NoDup (map abd_date buckets)
    /\ (forall d, In d (map abd_date buckets)
                  <-> In d (displays host data) /\ JsObject.recorded d = true)
    /\ (forall b, In b buckets ->
          abd_count b = occurrences (displays host data) (abd_date b))
    /\ StronglySorted (readsNoLater host) buckets
    /\ (forall t,
           filter (fun b => match stamp host b with
                            | Some s => (s =? t)%Z | None => false end) buckets
           = filter (fun b => match stamp host b with
                              | Some s => (s =? t)%Z | None => false end)
                    (map dateEntry groups))
    /\ articlesByDate host data = Some (lastn 7 buckets)
    /\ (exists earlier, buckets = earlier ++ lastn 7 buckets)
    /\ length (lastn 7 buckets) <= 7
    /\ (readsBack host data = true ->
        StronglySorted (chronological host data) buckets).
Proof.
  intros Hcount Hread.
  destruct (proj2 (countInto_total (displays host data)) Hcount)
    as [groups Hrun].
  destruct (countInto_countsOf _ _ Hrun) as (Hnd & _ & _).
  assert (Hdates : map abd_date (map dateEntry groups) = map fst groups).
  { rewrite map_map. apply map_ext. now intros [d n]. }
  assert (Hreadable :
            Forall (fun b => readable host (abd_date b) = true)
                   (map dateEntry groups)).
  { rewrite Forall_forall in *. intros b Hb. apply Hread.
    apply (in_map abd_date) in Hb. rewrite Hdates in Hb.
    now apply (countInto_keys _ _ _ Hrun) in Hb. }
  destruct (sortByDate_readable host _ Hreadable) as [Hsort Hsorted].
  set (buckets := JsSort.sort (notLater host) (map dateEntry groups)) in *.
  assert (Hperm : Permutation buckets (map dateEntry groups))
    by apply JsSortFacts.sort_perm.
  assert (Hpermd : Permutation (map abd_date buckets) (map fst groups))
    by (rewrite <- Hdates; now apply Permutation_map).
  assert (Hndb : NoDup (map abd_date buckets))
    by (apply (Permutation_NoDup (l := map fst groups));
        [now symmetry | exact Hnd]).
  exists groups, buckets.
  split; [exact Hrun|].
  split; [now apply countInto_countsOf|].
  split; [exact Hperm|].
  split; [exact Hndb|].
  split; [|split; [|split; [exact Hsorted|split; [|split; [|split; [|split]]]]]].
  - intros d. rewrite <- (countInto_keys _ _ d Hrun). split; intros H.
    + now apply (Permutation_in _ Hpermd).
    + apply (Permutation_in _ (Permutation_sym Hpermd)). exact H.
  - intros b Hb. apply (Permutation_in _ Hperm) in Hb.
    apply in_map_iff in Hb. destruct Hb as ([d n] & <- & Hin).
    destruct (countInto_entry _ _ _ _ Hrun Hin) as (-> & _ & _).
    reflexivity.
  - intros t. apply JsSortFacts.sort_stable. intros x y Hx Hy.
    unfold notLater.
    destruct (stamp host x) as [sx|]; [|discriminate].
    destruct (stamp host y) as [sy|]; [|discriminate].
    apply Z.eqb_eq in Hx, Hy. apply Z.leb_le. lia.
  - unfold articlesByDate, dateGroups. fold (displayOf host).
    fold (displays host data). rewrite Hrun, Hsort. reflexivity.
  - exists (firstn (length buckets - 7) buckets).
    unfold lastn. symmetry. apply firstn_skipn.
  - unfold lastn. rewrite length_skipn. lia.
  - intros Hback.
    apply StronglySorted_weaken
      with (R := fun p q => readsNoLater host p q /\ abd_date p <> abd_date q);
      [|now apply StronglySorted_distinct].
    intros p q [(tp & tq & Ep & Eq & Hle) Hne] a b ta tb Ha Hb Hda Hdb Hta Htb.
    unfold readsBack in Hback. rewrite forallb_forall in Hback.
    specialize (Hback a Ha). rewrite forallb_forall in Hback.
    specialize (Hback b Hb).
    unfold stamp in Ep, Eq.
    rewrite Hta, Htb, Hda, Hdb, Ep, Eq in Hback.
    apply andb_prop in Hback. destruct Hback as [Hlt Heq].
    destruct (Z.eq_dec tp tq) as [->|Hneq].
    + rewrite Z.eqb_refl in Heq. simpl in Heq.
      apply String.eqb_eq in Heq. contradiction.
    + assert (E : (tp <? tq)%Z = true) by (apply Z.ltb_lt; lia).
      rewrite E in Hlt. simpl in Hlt. now apply Z.ltb_lt.
Qed.

(** Under en-US the buckets of the winter articles are in date order. *)
Lemma articlesByDate_buckets_witness :
  exists buckets,
    articlesByDate Hosts.enUS winterArticles = Some (lastn 7 buckets)
    /\ StronglySorted (chronological Hosts.enUS winterArticles) buckets.
Proof.
  destruct (articlesByDate_buckets Hosts.enUS winterArticles)
    as (groups & buckets & _ & _ & _ & _ & _ & _ & _ & _ & Hrun & _ & _
        & Hchron).
  - vm_compute. repeat constructor.
  - cbv [displays winterArticles map].
    repeat (apply Forall_cons; [vm_compute; reflexivity|]). apply Forall_nil.
  - exists buckets. split; [exact Hrun|].
    apply Hchron. vm_compute. reflexivity.
Defined.

Example enUS_winter_series :
  articlesByDate Hosts.enUS winterArticles
  = Some [mkArticlesByDate "1/2/2024" 2; mkArticlesByDate "2/1/2024" 1].
Proof. vm_compute. reflexivity. Qed.

(** C9.  The time series is to be in ascending order of the dates
    themselves, and the code does not keep that order under a day-first
    locale: it sorts the buckets by the date read back from their display
    string.  Under en-GB the 2 January shows as 02/01/2024, which reads
    back as 1 February, and the 1 February as 01/02/2024, which reads back
    as 2 January: for articles of these two days the bucket of February is
    sorted before the bucket of January. *)
Lemma day_first_locale_not_chronological :
  exists out,
    articlesByDate Hosts.enGB winterArticles = Some out
    /\ out = [mkArticlesByDate "01/02/2024" 1; mkArticlesByDate "02/01/2024" 2]
    /\ ~ StronglySorted (chronological Hosts.enGB winterArticles) out.
Proof.
  eexists. split; [vm_compute; reflexivity|]. split; [reflexivity|].
  intros Hs. apply StronglySorted_inv in Hs. destruct Hs as [_ Hfa].
  apply Forall_cons_iff in Hfa. destruct Hfa as [Hchron _].
  specialize (Hchron (dated "2024-02-01") (dated "2024-01-02")
                     1706745600000%Z 1704153600000%Z).
  assert (H : (1706745600000 < 1704153600000)%Z).
  { apply Hchron.
    - right. left. reflexivity.
    - left. reflexivity.
    - vm_compute. reflexivity.
    - vm_compute. reflexivity.
    - vm_compute. reflexivity.
    - vm_compute. reflexivity. }
  lia.
Qed.

(* ================================================================== *)
(** * Further properties *)
(* ================================================================== *)

(** ** The runs of the handler *)

Lemma parseHeadlines_length (markdown : string) :
  length (parseHeadlinesFromMarkdown markdown) <= 5.
Proof.
  unfold parseHeadlinesFromMarkdown.
  rewrite parseLoop_firstn by (simpl; lia).
  rewrite length_firstn. lia.
Qed.

Lemma truthy_some_inv (key : string) :
  truthy (Some key) = true -> exists c rest, key = String c rest.
Proof. destruct key as [|c rest]; [discriminate | eauto]. Qed.

Lemma length_zero_iff_nil {A} (l : list A) :
  (length l =? 0)%nat = true <-> l = [].
Proof. destruct l; simpl; split; congruence. Qed.

(** Every run of the handler is one of the seven of [HandlerRun]. *)
Lemma runHandler_run (req : Request) (env : Env) (api : FireCrawl) :
  exists reply log,
    runHandler req env api = (Resolved reply, log)
    /\ HandlerRun req env api reply log.
Proof.
  unfold runHandler, handler.
  destruct (isMethod (method req) "POST") eqn:Em; cbv beta iota.
  2:{ eexists. eexists. split; [reflexivity|]. now constructor. }
  unfold tryCatch, tryBlock, bind, post, ret.
  destruct (FIRECRAWL_API_KEY env) as [[|c key]|] eqn:Ek.
  - eexists. eexists. split; [reflexivity|].
    apply run_no_key; [exact Em | now rewrite Ek].
  - destruct (postExtract api (String c key)) as [response|] eqn:Ee; cbv beta iota.
    + destruct (length (extractedArticles response) =? 0)%nat eqn:El.
      * apply length_zero_iff_nil in El.
        destruct (postScrape api (String c key)) as [sr|] eqn:Es; cbv beta iota.
        -- destruct (scrapedMarkdown sr) as [md|] eqn:Emd.
           ++ rewrite firstn_all2 by apply parseHeadlines_length.
              assert (Hcase : parseHeadlinesFromMarkdown md = []
                              \/ parseHeadlinesFromMarkdown md <> [])
                by (destruct (parseHeadlinesFromMarkdown md);
                    [left | right]; congruence).
              destruct Hcase as [Hnil|Hne].
              ** rewrite Hnil. eexists. eexists. split; [reflexivity|].
                 eapply run_nothing_scraped; eauto.
              ** replace (if (0 <? length (parseHeadlinesFromMarkdown md))%nat
                          then parseHeadlinesFromMarkdown md
                          else generateMockData)
                   with (parseHeadlinesFromMarkdown md)
                   by (destruct (parseHeadlinesFromMarkdown md);
                       [congruence | reflexivity]).
                 eexists. eexists. split; [reflexivity|].
                 eapply run_scraped; eauto.
           ++ rewrite El. eexists. eexists. split; [reflexivity|].
              eapply run_nothing_scraped; eauto.
        -- eexists. eexists. split; [reflexivity|].
           eapply run_scrape_rejected; eauto.
      * assert (Hne : extractedArticles response <> []).
        { intros H. apply length_zero_iff_nil in H. congruence. }
        replace (if (0 <? length (extractedArticles response))%nat
                 then extractedArticles response
                 else generateMockData)
          with (extractedArticles response)
          by (destruct (extractedArticles response);
              [congruence | reflexivity]).
        eexists. eexists. split; [reflexivity|].
        eapply run_extracted; eauto.
    + eexists. eexists. split; [reflexivity|].
      eapply run_extract_rejected; eauto.
  - eexists. eexists. split; [reflexivity|].
    apply run_no_key; [exact Em | now rewrite Ek].
Qed.

Lemma isMethod_post (req : Request) :
  method req = Some "POST" -> isMethod (method req) "POST" = true.
Proof. intros ->. reflexivity. Qed.

(** X1. A POST with a configured key whose extract call resolves with at
    least one article is answered with status 200 and exactly these
    articles, normalised; the scrape endpoint is not called. *)
Theorem handler_structured_extraction
        (req : Request) (env : Env) (api : FireCrawl)
        (key : string) (response : ExtractResponse) :
  method req = Some "POST" ->
  FIRECRAWL_API_KEY env = Some key -> key <> EmptyString ->
  postExtract api key = Resolved response ->
  extractedArticles response <> [] ->
  runHandler req env api
  = (Resolved (mkReply 200 (mkScrapeResponse true
                              (Some (extractedArticles response)) None)),
     [mkCall ExtractEndpoint false]).
Proof.
  intros Hm Hk Hne He Ha.
  unfold runHandler, handler. rewrite (isMethod_post _ Hm).
  unfold tryCatch, tryBlock, bind, post, ret. rewrite Hk.
  destruct key as [|c key]; [congruence|]. rewrite He. cbv beta iota.
  destruct (extractedArticles response) as [|a l]; [congruence|].
  reflexivity.
Qed.

Lemma handler_structured_extraction_witness :
  runHandler (mkRequest (Some "POST")) (mkEnv (Some "fc-key"))
    (mkFireCrawl
       (fun _ => Resolved (mkExtractResponse (Some (mkExtractBody (Some
          [mkExtractItem (Some (mkExtracted (Some
             [mkRawArticle (Some "Meta ships glasses") (Some "") None;
              mkRawArticle None (Some "Acme") (Some Funding)])))])))))
       (fun _ => Rejected))
  = (Resolved (mkReply 200 (mkScrapeResponse true
       (Some [mkArticle "Meta ships glasses" None Other;
              mkArticle "Untitled Article" (Some "Acme") Funding]) None)),
     [mkCall ExtractEndpoint false]).
Proof.
  apply (handler_structured_extraction
           (mkRequest (Some "POST")) (mkEnv (Some "fc-key")) _ "fc-key"
           (mkExtractResponse (Some (mkExtractBody (Some
              [mkExtractItem (Some (mkExtracted (Some
                 [mkRawArticle (Some "Meta ships glasses") (Some "") None;
                  mkRawArticle None (Some "Acme") (Some Funding)])))]))))).
  - reflexivity.
  - reflexivity.
  - discriminate.
  - reflexivity.
  - simpl. discriminate.
Defined.

(** X2. A POST while [FIRECRAWL_API_KEY] is unset or empty is answered
    with status 500 and the configuration error, and no external call is
    made. *)
Theorem handler_without_api_key
        (req : Request) (env : Env) (api : FireCrawl) :
  method req = Some "POST" ->
  FIRECRAWL_API_KEY env = None \/ FIRECRAWL_API_KEY env = Some EmptyString ->
  runHandler req env api
  = (Resolved (mkReply 500 (mkScrapeResponse false None
       (Some "FireCrawl API key not configured. Please add FIRECRAWL_API_KEY to your environment variables."))),
     []).
Proof.
  intros Hm Hk. unfold runHandler, handler. rewrite (isMethod_post _ Hm).
  unfold tryCatch, tryBlock, ret. destruct Hk as [-> | ->]; reflexivity.
Qed.

Lemma handler_without_api_key_witness :
  snd (runHandler (mkRequest (Some "POST")) (mkEnv (Some ""))
                  (mkFireCrawl (fun _ => Rejected) (fun _ => Rejected))) = [].
Proof.
  rewrite (handler_without_api_key (mkRequest (Some "POST")) (mkEnv (Some ""))
             (mkFireCrawl (fun _ => Rejected) (fun _ => Rejected))).
  - reflexivity.
  - reflexivity.
  - right. reflexivity.
Defined.

(** X3. Whatever the request, the environment and the service do, the
    handler answers 200, 405 or 500 and makes no call, or the extract call
    alone, or the extract call followed by the scrape call; the scrape call
    is made only after an extract call that was not rejected, and a reply
    other than 200 is sent without any call. *)
Theorem handler_call_discipline
        (req : Request) (env : Env) (api : FireCrawl) :
  exists reply log,
    runHandler req env api = (Resolved reply, log)
    /\ In (status reply) [200; 405; 500]
    /\ (log = []
        \/ (exists failed, log = [mkCall ExtractEndpoint failed])
        \/ (exists failed, log = [mkCall ExtractEndpoint false;
                                  mkCall ScrapeEndpoint failed]))
    /\ (status reply <> 200 -> log = []).
Proof.
  destruct (runHandler_run req env api) as (reply & log & Hrun & Hcase).
  exists reply, log. split; [exact Hrun|].
  destruct Hcase;
    (split; [simpl; tauto|]);
    (split; [|intros Hs; simpl in Hs; congruence]);
    eauto 7.
Qed.

(** X4. A reply with status 200 has [success] true, no error and a list of
    articles that is not empty; a reply with another status has [success]
    false, no articles and an error message that is not empty. *)
Theorem handler_reply_shape
        (req : Request) (env : Env) (api : FireCrawl) :
  exists reply,
    fst (runHandler req env api) = Resolved reply
    /\ ((status reply = 200
         /\ success (body reply) = true /\ error (body reply) = None
         /\ exists l, articles (body reply) = Some l /\ l <> [])
        \/ (status reply <> 200
            /\ success (body reply) = false /\ articles (body reply) = None
            /\ exists m, error (body reply) = Some m /\ m <> EmptyString)).
Proof.
  destruct (runHandler_run req env api) as (reply & log & Hrun & Hcase).
  exists reply. rewrite Hrun. split; [reflexivity|].
  destruct Hcase; simpl;
    try (right; repeat split; try discriminate;
         eexists; split; [reflexivity | discriminate]);
    left; repeat split; eexists; (split; [reflexivity|]);
    try discriminate; assumption.
Qed.

(** ** What the replies carry *)

(** A company that is found comes from the list, is mentioned, and no
    earlier name of the list is. *)
Lemma scanCompanies_some (headline : string) (cs : list string) (c : string) :
  scanCompanies headline cs = Some c ->
  exists i,
    nth_error cs i = Some c
    /\ mentions headline c = true
    /\ forall j c', j < i -> nth_error cs j = Some c' ->
                    mentions headline c' = false.
Proof.
  unfold mentions. induction cs as [|c0 cs IH]; simpl; [discriminate|].
  destruct (includes (toLowerCase headline) (toLowerCase c0)) eqn:E.
  - intros [= <-]. exists 0. repeat split; auto. intros j c' Hj. lia.
  - intros H. destruct (IH H) as (i & Hi & Hc & Hlt).
    exists (S i). repeat split; auto.
    intros [|j] c' Hj Hn; simpl in Hn.
    + injection Hn as <-. exact E.
    + apply (Hlt j); [lia | exact Hn].
Qed.

Lemma headlineMatch_nonempty (line label : string) :
  headlineMatch line = Some label -> label <> EmptyString.
Proof.
  unfold headlineMatch.
  destruct ((1 <=? countWhile isHash line)
            && (countWhile isHash line <=? 4))%nat; [|discriminate].
  destruct (1 <=? countWhile isSpace (dropWhile isHash line))%nat;
    [|discriminate].
  destruct (dropWhile isSpace (dropWhile isHash line)) as [|b [|c rest]];
    try discriminate.
  - destruct b as [[] [] [] [] [] [] [] []]; discriminate.
  - destruct b as [[] [] [] [] [] [] [] []]; try discriminate.
    destruct (isLineTerminator c); [discriminate|].
    destruct (lazyUntilBracket rest); [|discriminate].
    intros [= <-]. discriminate.
Qed.

Lemma qualifying_nonempty (lines : list string) :
  Forall (fun label => label <> EmptyString) (qualifying lines).
Proof.
  induction lines as [|line lines IH]; simpl; [constructor|].
  destruct (headlineMatch line) as [label|] eqn:E; [|exact IH].
  constructor; [now apply headlineMatch_nonempty in E | exact IH].
Qed.

Lemma Forall_firstn {A} (P : A -> Prop) (n : nat) (l : list A) :
  Forall P l -> Forall P (firstn n l).
Proof.
  rewrite !Forall_forall. intros H x Hx. apply H.
  rewrite <- (firstn_skipn n l). apply in_or_app. now left.
Qed.

Lemma articleOfHeadline_wellFormed (label : string) :
  label <> EmptyString -> wellFormed (articleOfHeadline label).
Proof.
  intros Hne. split; [exact Hne|]. simpl.
  unfold extractCompanyFromHeadline. intros H.
  apply scanCompanies_some in H. destruct H as (i & Hi & _).
  apply nth_error_In in Hi. simpl in Hi.
  repeat (destruct Hi as [Hi|Hi]; [discriminate|]). exact Hi.
Qed.

Lemma parseHeadlines_wellFormed (markdown : string) :
  Forall wellFormed (parseHeadlinesFromMarkdown markdown).
Proof.
  unfold parseHeadlinesFromMarkdown.
  rewrite parseLoop_firstn by (simpl; lia).
  apply Forall_firstn. rewrite Forall_forall. intros a Ha.
  apply in_map_iff in Ha. destruct Ha as (label & <- & Hin).
  apply articleOfHeadline_wellFormed.
  pose proof (qualifying_nonempty (splitChar LF markdown)) as Hq.
  rewrite Forall_forall in Hq. now apply Hq.
Qed.

Lemma normalizeArticle_wellFormed (raw : RawArticle) :
  wellFormed (normalizeArticle raw).
Proof.
  unfold wellFormed, normalizeArticle. simpl. split.
  - destruct (raw_headline raw) as [[|c h]|]; discriminate.
  - destruct (raw_company raw) as [[|c h]|]; discriminate.
Qed.

Lemma extractedArticles_wellFormed (response : ExtractResponse) :
  Forall wellFormed (extractedArticles response).
Proof.
  unfold extractedArticles.
  destruct (extract_body response) as [b|]; [|constructor].
  destruct (extract_data b) as [[|first rest]|]; try constructor.
  destruct (extract first) as [e|]; [|constructor].
  destruct (extracted_articles e) as [l|]; [|constructor].
  rewrite Forall_forall. intros a Ha. apply in_map_iff in Ha.
  destruct Ha as (raw & <- & _). apply normalizeArticle_wellFormed.
Qed.

Lemma mockData_wellFormed : Forall wellFormed generateMockData.
Proof. repeat constructor; discriminate. Qed.

(** X5. Whichever way the handler gets its articles (the extraction
    payload, the markdown fallback or the sample data), every article it
    replies with has a headline that is not empty, and its company is
    absent or not empty. *)
Theorem handler_articles_well_formed
        (req : Request) (env : Env) (api : FireCrawl) :
  exists reply,
    fst (runHandler req env api) = Resolved reply
    /\ Forall wellFormed (repliedArticles reply).
Proof.
  destruct (runHandler_run req env api) as (reply & log & Hrun & Hcase).
  exists reply. rewrite Hrun. split; [reflexivity|].
  destruct Hcase; unfold repliedArticles; cbn [body articles mockReply];
    first [ apply Forall_nil
          | apply mockData_wellFormed
          | apply extractedArticles_wellFormed
          | apply parseHeadlines_wellFormed ].
Qed.

(** X6. Whenever the handler called the scrape endpoint, its reply holds
    at least 1 and at most 5 articles. *)
Theorem handler_fallback_at_most_five
        (req : Request) (env : Env) (api : FireCrawl)
        (reply : Reply) (log : list Call) :
  runHandler req env api = (Resolved reply, log) ->
  (exists failed, In (mkCall ScrapeEndpoint failed) log) ->
  1 <= length (repliedArticles reply) <= 5.
Proof.
  intros Hrun [failed Hin].
  destruct (runHandler_run req env api) as (reply' & log' & Hrun' & Hcase).
  rewrite Hrun in Hrun'. injection Hrun' as <- <-.
  destruct Hcase as [| | | | |key response sr md _ _ _ _ _ _ _ Hne|];
    simpl in Hin;
    try (exfalso; intuition discriminate);
    unfold repliedArticles; simpl; try lia.
  pose proof (parseHeadlines_length md).
  destruct (parseHeadlinesFromMarkdown md); [congruence | simpl in *; lia].
Qed.

Lemma handler_fallback_at_most_five_witness :
  1 <= length (repliedArticles
                 (mkReply 200 (mkScrapeResponse true
                    (Some [mkArticle "Uber launches robotaxi" (Some "Uber") Product])
                    None))) <= 5.
Proof.
  apply (handler_fallback_at_most_five
           (mkRequest (Some "POST")) (mkEnv (Some "fc-key"))
           (mkFireCrawl
              (fun _ => Resolved (mkExtractResponse None))
              (fun _ => Resolved (mkMarkdownResponse (Some (mkScrapeBody (Some
                 (mkScrapeData (Some "intro
## [Uber launches robotaxi](https://news.example/1)
not a heading"))))))))
           _ [mkCall ExtractEndpoint false; mkCall ScrapeEndpoint false]).
  - vm_compute. reflexivity.
  - exists false. right. left. reflexivity.
Defined.

(** ** The monitor page after a fetch *)

Lemma orElse_nonempty (s : option string) (c : ascii) (rest : string) :
  orElse s (String c rest) <> EmptyString.
Proof. destruct s as [[|d s]|]; discriminate. Qed.

(** X7. After [fetchNews] got the handler's reply, the page is not
    loading and never shows its empty state.  On a 200 it shows the grid
    with the replied articles and no error box; on a 405 or 500 it shows
    the error box with the handler's message and keeps the articles it
    had. *)
Theorem page_after_handler_reply
        (req : Request) (env : Env) (api : FireCrawl) (st : PageState) :
  exists reply,
    fst (runHandler req env api) = Resolved reply
    /\ page_loading (fetchNews st (Some reply)) = false
    /\ showsEmptyState (fetchNews st (Some reply)) = false
    /\ (status reply = 200 ->
        showsGrid (fetchNews st (Some reply)) = true
        /\ showsErrorBox (fetchNews st (Some reply)) = false
        /\ page_articles (fetchNews st (Some reply)) = repliedArticles reply)
    /\ (status reply <> 200 ->
        showsErrorBox (fetchNews st (Some reply)) = true
        /\ page_articles (fetchNews st (Some reply)) = page_articles st
        /\ page_error (fetchNews st (Some reply)) = error (body reply)).
Proof.
  destruct (runHandler_run req env api) as (reply & log & Hrun & Hcase).
  exists reply. rewrite Hrun. split; [reflexivity|].
  assert (Hshown : forall l : list Article,
             l <> [] ->
             let st' := fetchNews st (Some (mkReply 200
                          (mkScrapeResponse true (Some l) None))) in
             page_loading st' = false
             /\ showsEmptyState st' = false
             /\ (200 = 200 ->
                 showsGrid st' = true /\ showsErrorBox st' = false
                 /\ page_articles st' = l)
             /\ (200 <> 200 ->
                 showsErrorBox st' = true
                 /\ page_articles st' = page_articles st
                 /\ page_error st' = None)).
  { intros [|a l] Hne; [congruence|]. cbv. repeat split; congruence. }
  destruct Hcase;
    try (apply Hshown; first [assumption | discriminate]).
  - unfold showsEmptyState, showsErrorBox. simpl.
    repeat split; try reflexivity; try (intros; discriminate);
      now rewrite andb_false_r.
  - unfold showsEmptyState, showsErrorBox. simpl.
    repeat split; try reflexivity; try (intros; discriminate);
      now rewrite andb_false_r.
Qed.

(** X8. Whatever the reply to [fetchNews] (or the lack of one), the page
    stops loading and its error is never the empty string; when the fetch
    ends with an error the articles shown before are kept, and it ends
    without one only on a 2xx reply with [success] true, whose articles are
    then shown. *)
Theorem fetchNews_failure_keeps_articles
        (st : PageState) (reply : option Reply) :
  page_loading (fetchNews st reply) = false
  /\ page_error (fetchNews st reply) <> Some EmptyString
  /\ (page_error (fetchNews st reply) <> None ->
      page_articles (fetchNews st reply) = page_articles st)
  /\ (page_error (fetchNews st reply) = None ->
      exists r l,
        reply = Some r /\ 200 <= status r < 300
        /\ success (body r) = true /\ articles (body r) = Some l
        /\ page_articles (fetchNews st reply) = l).
Proof.
  unfold fetchNews. destruct reply as [r|].
  2:{ simpl. repeat split; try discriminate. }
  destruct ((200 <=? status r) && (status r <? 300))%nat eqn:Es.
  - apply andb_prop in Es. destruct Es as [E1 E2].
    apply Nat.leb_le in E1. apply Nat.ltb_lt in E2.
    destruct (success (body r)) eqn:Esucc;
      [destruct (articles (body r)) as [l|] eqn:Ea|]; simpl;
      repeat split; try discriminate; try congruence;
      try (intros H; injection H as H; revert H; apply orElse_nonempty).
    intros _. exists r, l. repeat split; auto.
  - simpl. repeat split; try discriminate.
    intros H; injection H as H; revert H; apply orElse_nonempty.
Qed.

Lemma fetchNews_failure_keeps_articles_witness :
  page_articles
    (fetchNews (mkPageState generateMockData true None)
               (Some (mkReply 500 (mkScrapeResponse false None None))))
  = generateMockData.
Proof.
  apply (proj1 (proj2 (proj2 (fetchNews_failure_keeps_articles
           (mkPageState generateMockData true None)
           (Some (mkReply 500 (mkScrapeResponse false None None))))))).
  discriminate.
Defined.

(** ** More on the classifier *)

Lemma lowerChar_idempotent (c : ascii) : lowerChar (lowerChar c) = lowerChar c.
Proof. destruct c as [[] [] [] [] [] [] [] []]; reflexivity. Qed.

Lemma toLowerCase_idempotent (s : string) :
  toLowerCase (toLowerCase s) = toLowerCase s.
Proof.
  induction s as [|c s IH]; simpl; [reflexivity|].
  now rewrite lowerChar_idempotent, IH.
Qed.

(** X9. The classifier does not look at letter case: headlines with the
    same case-folded text get the same category and the same company, and
    the case-folded headline is classified like the headline itself. *)
Theorem classification_ignores_case (h1 h2 : string) :
  toLowerCase h1 = toLowerCase h2 ->
  categorizeHeadline h1 = categorizeHeadline h2
  /\ extractCompanyFromHeadline h1 = extractCompanyFromHeadline h2
  /\ categorizeHeadline (toLowerCase h1) = categorizeHeadline h2
  /\ extractCompanyFromHeadline (toLowerCase h1) = extractCompanyFromHeadline h2.
Proof.
  intros E.
  assert (Hscan : forall a b cs,
             toLowerCase a = toLowerCase b ->
             scanCompanies a cs = scanCompanies b cs).
  { intros a b cs Hab. induction cs as [|c cs IH]; simpl; [reflexivity|].
    now rewrite Hab, IH. }
  unfold categorizeHeadline, extractCompanyFromHeadline.
  rewrite toLowerCase_idempotent, E.
  repeat split; apply Hscan; [exact E|].
  now rewrite toLowerCase_idempotent.
Qed.

Lemma classification_ignores_case_witness :
  categorizeHeadline "OPENAI SHIPS GPT-5" = categorizeHeadline "OpenAI ships GPT-5"
  /\ extractCompanyFromHeadline "OPENAI SHIPS GPT-5" = Some "OpenAI".
Proof.
  destruct (classification_ignores_case "OPENAI SHIPS GPT-5" "OpenAI ships GPT-5")
    as (Hc & Hn & _).
  - reflexivity.
  - split; [exact Hc|]. rewrite Hn. reflexivity.
Defined.

(** X10. A company that [extractCompanyFromHeadline] reports is a name of
    the fixed list that occurs, case-folded, in the case-folded headline,
    and no name that stands earlier in the list occurs. *)
Theorem extractCompany_reports_listed_name (headline c : string) :
  extractCompanyFromHeadline headline = Some c ->
  In c companies
  /\ mentions headline c = true
  /\ exists i,
       nth_error companies i = Some c
       /\ forall j c', j < i -> nth_error companies j = Some c' ->
                       mentions headline c' = false.
Proof.
  intros H. apply scanCompanies_some in H.
  destruct H as (i & Hi & Hc & Hlt).
  split; [now apply nth_error_In in Hi|]. split; [exact Hc|].
  exists i. auto.
Qed.

Lemma extractCompany_reports_listed_name_witness :
  In "Netflix" companies /\ mentions "Why Netflix beat the box office" "Netflix" = true.
Proof.
  destruct (extractCompany_reports_listed_name
              "Why Netflix beat the box office" "Netflix") as (Hin & Hm & _).
  - reflexivity.
  - split; assumption.
Defined.

Lemma In_firstn_nth {A} (n : nat) (l : list A) (x : A) :
  In x (firstn n l) -> exists k, k < n /\ nth_error l k = Some x.
Proof.
  revert l; induction n as [|n IH]; intros [|y l]; simpl; try tauto.
  intros [<-|H].
  - exists 0. split; [lia | reflexivity].
  - destruct (IH l H) as (k & Hk & Hn). exists (S k). split; [lia | exact Hn].
Qed.

(** X11. The name "X" is matched as the bare letter: every headline with
    an x or X in it is given a company, which is "X" unless one of the
    twelve names listed before it occurs. *)
Theorem letter_x_names_a_company (headline : string) :
  includes (toLowerCase headline) "x" = true ->
  exists c,
    extractCompanyFromHeadline headline = Some c
    /\ In c (firstn 13 companies)
    /\ (c = "X" <->
        forall c', In c' (firstn 12 companies) -> mentions headline c' = false).
Proof.
  intros Hx.
  assert (HX : mentions headline "X" = true) by exact Hx.
  unfold extractCompanyFromHeadline.
  destruct (scanCompanies headline companies) as [c|] eqn:E.
  2:{ pose proof (proj1 (scanCompanies_none _ _) E) as E'.
      rewrite (E' "X") in HX; [discriminate|]. simpl. tauto. }
  exists c. split; [reflexivity|].
  apply scanCompanies_some in E. destruct E as (i & Hi & Hc & Hlt).
  assert (Hle : i <= 12).
  { destruct (Nat.le_gt_cases i 12) as [H|H]; [exact H|].
    rewrite (Hlt 12 "X") in HX; [discriminate | exact H | reflexivity]. }
  assert (Hfirst : forall k c', k < 12 -> nth_error companies k = Some c' ->
                                In c' (firstn 12 companies)).
  { intros k c' Hk Hn.
    do 12 (destruct k as [|k]; [injection Hn as <-; simpl; tauto|]). lia. }
  split; [|split].
  - do 13 (destruct i as [|i]; [injection Hi as <-; simpl; tauto|]). lia.
  - intros -> c' Hin.
    assert (Hi12 : i = 12).
    { do 12 (destruct i as [|i]; [discriminate Hi|]).
      destruct i; [reflexivity | lia]. }
    subst i. apply In_firstn_nth in Hin. destruct Hin as (k & Hk & Hn).
    now apply (Hlt k).
  - intros Hnone.
    destruct (Nat.eq_dec i 12) as [->|Hne].
    + now injection Hi as <-.
    + assert (Hlt12 : i < 12) by lia.
      rewrite (Hnone c (Hfirst i c Hlt12 Hi)) in Hc. discriminate.
Qed.

Lemma letter_x_names_a_company_witness :
  exists c, extractCompanyFromHeadline "Tax reform explained" = Some c
            /\ In c (firstn 13 companies).
Proof.
  destruct (letter_x_names_a_company "Tax reform explained")
    as (c & Hc & Hin & _).
  - reflexivity.
  - exists c. split; assumption.
Defined.

(** X12. A headline that contains a word with "ai" inside it, whatever
    the word says, is classified AI: so with the Funding keyword "raises",
    and with a mention of Airbnb. *)
Theorem ai_inside_a_word_decides (headline word : string) :
  includes (toLowerCase headline) word = true ->
  includes word "ai" = true ->
  categorizeHeadline headline = AI.
Proof.
  intros Hw Hai. unfold categorizeHeadline.
  rewrite (includes_trans _ _ _ Hw Hai). reflexivity.
Qed.

Lemma ai_inside_a_word_decides_witness :
  categorizeHeadline "Airbnb launches product update after lawsuit" = AI.
Proof.
  apply (ai_inside_a_word_decides
           "Airbnb launches product update after lawsuit" "airbnb");
    reflexivity.
Defined.

Lemma firstMatch_sound (lower : string)
      (groups : list (Category * list string)) (c : Category) :
  firstMatch lower groups = c -> c <> Other ->
  exists i g,
    nth_error groups i = Some g /\ fst g = c
    /\ groupMatches lower g = true
    /\ forall j g', j < i -> nth_error groups j = Some g' ->
                    groupMatches lower g' = false.
Proof.
  induction groups as [|g0 groups IH]; simpl; intros H Hc; [congruence|].
  destruct (groupMatches lower g0) eqn:E.
  - exists 0, g0. repeat split; auto. intros j g' Hj. lia.
  - destruct (IH H Hc) as (i & g & Hi & Hg & Hm & Hlt).
    exists (S i), g. repeat split; auto.
    intros [|j] g' Hj Hn; simpl in Hn.
    + now injection Hn as <-.
    + apply (Hlt j); [lia | exact Hn].
Qed.

(** X13. A category other than Other is never given without cause: a
    keyword of that category's group occurs in the case-folded headline,
    and no keyword of a group tested before it does. *)
Theorem category_has_a_keyword (headline : string) (c : Category) :
  categorizeHeadline headline = c -> c <> Other ->
  exists i keywords,
    nth_error keywordGroups i = Some (c, keywords)
    /\ (exists k, In k keywords /\ includes (toLowerCase headline) k = true)
    /\ forall j g', j < i -> nth_error keywordGroups j = Some g' ->
                    groupMatches (toLowerCase headline) g' = false.
Proof.
  intros H Hc. rewrite categorizeHeadline_firstMatch in H.
  destruct (firstMatch_sound _ _ _ H Hc) as (i & [c' kws] & Hi & Hg & Hm & Hlt).
  simpl in Hg. subst c'. exists i, kws. split; [exact Hi|]. split; [|exact Hlt].
  unfold groupMatches in Hm. simpl in Hm. apply existsb_exists in Hm. exact Hm.
Qed.

Lemma category_has_a_keyword_witness :
  exists i keywords,
    nth_error keywordGroups i = Some (Regulation, keywords)
    /\ exists k, In k keywords
                 /\ includes (toLowerCase "EU court hears lawsuit") k = true.
Proof.
  destruct (category_has_a_keyword "EU court hears lawsuit" Regulation)
    as (i & kws & Hi & Hk & _).
  - reflexivity.
  - discriminate.
  - exists i, kws. split; assumption.
Defined.

(** ** More on the markdown fallback *)

(** X14. A line gives a headline exactly when it is 1 to 4 hashes, white
    space, an opening bracket, a label and a closing bracket, the label
    being one character that is no line terminator followed by characters
    that are neither a closing bracket nor a line terminator; what follows
    the closing bracket (a link target, a carriage return) does not
    matter. *)
Theorem heading_pattern (line label : string) :
  (headlineMatch line = Some label <-> matchesHeading line label)
  /\ (headlineMatch line = Some label ->
      forall tail, headlineMatch (line ++ tail)%string = Some label).
Proof.
  split; [apply headlineMatch_iff|].
  intros H tail. apply headlineMatch_iff in H. apply headlineMatch_iff.
  destruct H as (hashes & spaces & c & label' & rest & -> & Hl & Hrest).
  exists hashes, spaces, c, label', (rest ++ tail)%string.
  split; [|split; [exact Hl | exact Hrest]].
  rewrite !string_app_assoc. reflexivity.
Qed.

Lemma heading_pattern_witness :
  headlineMatch ("## [Tesla recalls Model Y](https://t.example/a)"
                 ++ String (ascii_of_nat 13) "")%string
  = Some "Tesla recalls Model Y".
Proof.
  apply (proj2 (heading_pattern "## [Tesla recalls Model Y](https://t.example/a)"
                                "Tesla recalls Model Y")).
  reflexivity.
Defined.

Lemma qualifying_in (lines : list string) (label : string) :
  In label (qualifying lines) ->
  exists line, In line lines /\ headlineMatch line = Some label.
Proof.
  induction lines as [|line lines IH]; simpl; [tauto|].
  destruct (headlineMatch line) as [l|] eqn:E.
  - intros [<-|H]; [eauto|]. destruct (IH H) as (ln & Hin & Hm). eauto.
  - intros H. destruct (IH H) as (ln & Hin & Hm). eauto.
Qed.

(** X15. Every article the fallback parser returns carries the label of
    one of the lines as headline, the category [categorizeHeadline] gives
    that headline and the company [extractCompanyFromHeadline] gives it. *)
Theorem parsed_articles_are_classified (markdown : string) :
  Forall
    (fun a =>
       (exists line,
           In line (splitChar LF markdown)
           /\ headlineMatch line = Some (headline a))
       /\ category a = categorizeHeadline (headline a)
       /\ company a = extractCompanyFromHeadline (headline a))
    (parseHeadlinesFromMarkdown markdown).
Proof.
  unfold parseHeadlinesFromMarkdown.
  rewrite parseLoop_firstn by (simpl; lia).
  apply Forall_firstn. rewrite Forall_forall. intros a Ha.
  apply in_map_iff in Ha. destruct Ha as (label & <- & Hin).
  split; [now apply qualifying_in | split; reflexivity].
Qed.

Lemma splitChar_nonempty (sep : ascii) (s : string) : splitChar sep s <> [].
Proof.
  destruct s as [|c s]; simpl; [discriminate|].
  destruct (Ascii.eqb c sep); [discriminate|].
  destruct (splitChar sep s); discriminate.
Qed.

(** Splitting a text cut at a separator splits the two parts. *)
Lemma splitChar_app (sep : ascii) (a b : string) :
  splitChar sep (a ++ String sep b)%string
  = splitChar sep a ++ splitChar sep b.
Proof.
  induction a as [|c a IH]; simpl.
  - now rewrite Ascii.eqb_refl.
  - rewrite IH. destruct (Ascii.eqb c sep); [reflexivity|].
    pose proof (splitChar_nonempty sep a) as Hne.
    destruct (splitChar sep a) as [|piece pieces]; [congruence | reflexivity].
Qed.

Lemma qualifying_app (l1 l2 : list string) :
  qualifying (l1 ++ l2) = qualifying l1 ++ qualifying l2.
Proof.
  induction l1 as [|line l1 IH]; simpl; [reflexivity|].
  destruct (headlineMatch line); simpl; now rewrite IH.
Qed.

(** X16. Once a text has 5 qualifying lines, whatever lines follow it do
    not change the result. *)
Theorem parser_stops_at_five (markdown more : string) :
  5 <= length (qualifying (splitChar LF markdown)) ->
  parseHeadlinesFromMarkdown (markdown ++ String LF more)%string
  = parseHeadlinesFromMarkdown markdown.
Proof.
  intros H5. unfold parseHeadlinesFromMarkdown.
  rewrite !parseLoop_firstn by (simpl; lia).
  rewrite splitChar_app, qualifying_app. cbn [app].
  rewrite map_app, firstn_app, length_map.
  replace (5 - length (qualifying (splitChar LF markdown))) with 0 by lia.
  rewrite firstn_O. apply app_nil_r.
Qed.

Lemma parser_stops_at_five_witness :
  parseHeadlinesFromMarkdown
    ("# [A1](u)" ++ String LF "# [B2](u)" ++ String LF "# [C3](u)"
     ++ String LF "# [D4](u)" ++ String LF "# [E5](u)"
     ++ String LF "# [F6](u)")%string
  = parseHeadlinesFromMarkdown
      ("# [A1](u)" ++ String LF "# [B2](u)" ++ String LF "# [C3](u)"
       ++ String LF "# [D4](u)" ++ String LF "# [E5](u)")%string.
Proof.
  apply (parser_stops_at_five
           ("# [A1](u)" ++ String LF "# [B2](u)" ++ String LF "# [C3](u)"
            ++ String LF "# [D4](u)" ++ String LF "# [E5](u)")%string
           "# [F6](u)").
  vm_compute. lia.
Defined.

(** X17. The handler's [headlines.slice(0, 5)] never drops an article:
    the parser has already stopped at 5. *)
Theorem handler_slice_keeps_all (markdown : string) :
  firstn 5 (parseHeadlinesFromMarkdown markdown)
  = parseHeadlinesFromMarkdown markdown.
Proof. apply firstn_all2. apply parseHeadlines_length. Qed.

(** ** Counts add up *)

Lemma totalCount_overwrite (o : JsObject.t) (key : string) (n v : N) :
  JsObject.own o key = Some n ->
  (totalCount (JsObject.overwrite o key v) + n = totalCount o + v)%N.
Proof.
  unfold totalCount.
  induction o as [|[k w] o IH]; simpl; [discriminate|].
  destruct (String.eqb k key); simpl.
  - intros [= ->]. lia.
  - intros H. specialize (IH H). lia.
Qed.

Lemma totalCount_create (o : JsObject.t) (key : string) (v : N) :
  totalCount (JsObject.create o key v) = (totalCount o + v)%N.
Proof.
  unfold JsObject.create, totalCount.
  destruct (JsObject.arrayIndex key) as [i|].
  - induction o as [|[k w] o IH]; simpl; [lia|].
    destruct (JsObject.arrayIndex k) as [j|]; [destruct (j <? i)%N|];
      simpl; lia.
  - rewrite map_app, fold_right_app. simpl.
    generalize (map snd o). intros l.
    induction l as [|x l IH]; simpl; [lia|]. rewrite IH. lia.
Qed.

(** The counts of the object add up to the number of keys counted, those
    the object cannot record left out. *)
Lemma countInto_totalCount (keys : list string) (o : JsObject.t) :
  JsObject.countInto [] keys = Some o ->
  totalCount o = N.of_nat (length (filter JsObject.recorded keys)).
Proof.
  revert o. induction keys as [|k keys IH] using rev_ind; intros o Hrun.
  - injection Hrun as <-. reflexivity.
  - rewrite JsObjectFacts.countInto_snoc in Hrun.
    destruct (JsObject.countInto [] keys) as [o0|]; [|discriminate].
    specialize (IH o0 eq_refl).
    rewrite filter_snoc, length_app.
    unfold JsObject.bump, JsObject.recorded in *.
    destruct (String.eqb k "__proto__"); simpl.
    + injection Hrun as <-. rewrite IH. f_equal. lia.
    + destruct (JsObject.own o0 k) as [n|] eqn:Eown.
      * injection Hrun as <-.
        pose proof (totalCount_overwrite o0 k n (n + 1) Eown). lia.
      * destruct (JsObject.inherited k); [discriminate|].
        injection Hrun as <-. rewrite totalCount_create. lia.
Qed.

(** An object has no more properties than keys were counted. *)
Lemma countInto_length (keys : list string) (o : JsObject.t) :
  JsObject.countInto [] keys = Some o -> length o <= length keys.
Proof.
  intros Hrun.
  destruct (countInto_countsOf keys o Hrun) as (Hnd & _ & _).
  rewrite <- (length_map fst o).
  apply NoDup_incl_length; [exact Hnd|].
  intros x Hx. now apply (countInto_keys _ _ x Hrun) in Hx.
Qed.

Lemma forallb_filter_id {A} (p : A -> bool) (l : list A) :
  Forall (fun x => p x = true) l -> filter p l = l.
Proof.
  induction 1 as [|x l Hx _ IH]; simpl; [reflexivity|].
  now rewrite Hx, IH.
Qed.

(** X18. The counts of the topic distribution add up to the number of
    articles, those with the topic ["__proto__"] left out, for which the
    object keeps no count; so to the total when no article has that topic.
    There are never more topics than articles. *)
Theorem topic_counts_add_up (data : list NewsArticle) :
  Forall (fun k => JsObject.countable k = true) (topics data) ->
  exists dist,
    topicDistribution data = Some dist
    /\ topicTotal dist
       = N.of_nat (length (filter JsObject.recorded (topics data)))
    /\ length dist <= length data
    /\ (Forall (fun k => JsObject.recorded k = true) (topics data) ->
        topicTotal dist = N.of_nat (length data)).
Proof.
  intros Hall.
  destruct (proj2 (countInto_total (topics data)) Hall) as [counts Hrun].
  exists (map (distributionEntry (length data)) counts).
  assert (Hsum : topicTotal (map (distributionEntry (length data)) counts)
                 = N.of_nat (length (filter JsObject.recorded (topics data)))).
  { rewrite <- (countInto_totalCount _ _ Hrun).
    unfold topicTotal, totalCount. rewrite map_map. f_equal.
    apply map_ext. now intros [k n]. }
  split; [|split; [exact Hsum|split]].
  - unfold topicDistribution, topicCounts. fold (topics data).
    now rewrite Hrun.
  - rewrite length_map. pose proof (countInto_length _ _ Hrun) as H.
    unfold topics in H. now rewrite length_map in H.
  - intros Hrec. rewrite Hsum, (forallb_filter_id _ _ Hrec).
    unfold topics. now rewrite length_map.
Qed.

Lemma topic_counts_add_up_witness :
  exists dist,
    topicDistribution fortyArticles = Some dist
    /\ topicTotal dist = 40%N.
Proof.
  destruct (topic_counts_add_up fortyArticles) as (dist & Hrun & _ & _ & Hsum).
  - vm_compute. repeat constructor.
  - exists dist. split; [exact Hrun|].
    apply Hsum. vm_compute. repeat constructor.
Defined.

(** ** The ranked words *)

(** The pieces inherit what holds of the word characters of the string. *)
Lemma splitNonWord_chars (q : ascii -> bool) (s : string) :
  allChars (fun c => implb (isWordChar c) (q c)) s = true ->
  Forall (fun piece => allChars q piece = true) (splitNonWord s).
Proof.
  induction s as [|c s IH]; simpl; intros H.
  - repeat constructor.
  - apply andb_prop in H. destruct H as [Hc Hs]. specialize (IH Hs).
    destruct (isWordChar c) eqn:Ec.
    + simpl in Hc. destruct (splitNonWord s) as [|piece pieces].
      * repeat constructor. simpl. now rewrite Hc.
      * apply Forall_cons_iff in IH. destruct IH as [Hp Hps].
        constructor; [simpl; now rewrite Hc, Hp | exact Hps].
    + assert (Hskip : Forall (fun piece => allChars q piece = true)
                             (EmptyString :: splitNonWord s))
        by now constructor.
      destruct s as [|c' s']; [exact Hskip|].
      destruct (isWordChar c'); [exact Hskip | exact IH].
Qed.

Lemma lowerChar_word_is_lower (c : ascii) :
  implb (isWordChar (lowerChar c)) (isLowerWordChar (lowerChar c)) = true.
Proof. destruct c as [[] [] [] [] [] [] [] []]; reflexivity. Qed.

Lemma toLowerCase_word_chars (s : string) :
  allChars (fun c => implb (isWordChar c) (isLowerWordChar c))
           (toLowerCase s) = true.
Proof.
  induction s as [|c s IH]; simpl; [reflexivity|].
  now rewrite lowerChar_word_is_lower, IH.
Qed.

Lemma words_are_lower (data : list NewsArticle) (w : string) :
  In w (words data) -> allChars isLowerWordChar w = true.
Proof.
  intros H. apply in_words in H. destruct H as [(article & _ & Hin) _].
  pose proof (splitNonWord_chars isLowerWordChar _
                (toLowerCase_word_chars (title article))) as Hall.
  rewrite Forall_forall in Hall. now apply Hall.
Qed.

Lemma NoDup_firstn {A} (n : nat) (l : list A) : NoDup l -> NoDup (firstn n l).
Proof.
  intros H. rewrite <- (firstn_skipn n l) in H.
  now apply NoDup_app_remove_r in H.
Qed.

(** X19. The word ranking has at most 5 entries and no word twice; every
    ranked word is made of lower-case letters, digits and underscores, has
    3 characters or more and is no stopword; its count is the number of
    times it occurs in the titles, at least 1. *)
Theorem ranked_words_are_clean (data : list NewsArticle) :
  Forall (fun w => JsObject.countable w = true) (words data) ->
  exists top,
    wordFrequency data = Some top
    /\ length top <= 5
    /\ NoDup (map wf_word top)
    /\ Forall
         (fun e =>
            allChars isLowerWordChar (wf_word e) = true
            /\ 3 <= String.length (wf_word e)
            /\ isStopword (wf_word e) = false
            /\ wf_count e = occurrences (words data) (wf_word e)
            /\ (1 <= wf_count e)%N)
         top.
Proof.
  intros Hall.
  destruct (proj2 (countInto_total (words data)) Hall) as [counts Hrun].
  destruct (countInto_countsOf _ _ Hrun) as (Hnd & _ & _).
  exists (firstn 5 (JsSort.sort notFewer (map wordEntry counts))).
  split; [|split; [|split]].
  - unfold wordFrequency, wordCounts. now rewrite Hrun.
  - rewrite length_firstn. lia.
  - rewrite <- firstn_map. apply NoDup_firstn.
    apply (Permutation_NoDup (l := map fst counts)); [|exact Hnd].
    replace (map fst counts) with (map wf_word (map wordEntry counts))
      by (rewrite map_map; apply map_ext; now intros [w n]).
    apply Permutation_map. symmetry. apply JsSortFacts.sort_perm.
  - apply Forall_firstn. rewrite Forall_forall. intros e He.
    apply (Permutation_in _ (JsSortFacts.sort_perm notFewer _)) in He.
    apply in_map_iff in He. destruct He as ([w n] & <- & Hin).
    destruct (countInto_entry _ _ _ _ Hrun Hin) as (-> & Hw & _).
    simpl. pose proof (occurrences_bounds _ _ Hw) as Hb.
    pose proof (words_are_lower _ _ Hw) as Hl.
    apply in_words in Hw. destruct Hw as (_ & Hlen & Hstop).
    repeat split; auto; lia.
Qed.

Lemma ranked_words_are_clean_witness :
  exists top,
    wordFrequency exampleTitles = Some top /\ NoDup (map wf_word top).
Proof.
  destruct (ranked_words_are_clean exampleTitles) as (top & Hrun & _ & Hnd & _).
  - vm_compute. repeat constructor.
  - exists top. split; assumption.
Defined.

(** ** More on the time series *)

Lemma countInto_repeat_invalid (c : N) (m : nat) :
  JsObject.countInto [("Invalid Date", c)] (repeat "Invalid Date" m)
  = Some [("Invalid Date", (c + N.of_nat m)%N)].
Proof.
  revert c; induction m as [|m IH]; intros c.
  - simpl. now rewrite N.add_0_r.
  - cbn [repeat JsObject.countInto].
    change (JsObject.bump [("Invalid Date", c)] "Invalid Date")
      with (Some [("Invalid Date", (c + 1)%N)]).
    cbv beta iota. rewrite IH. do 3 f_equal. lia.
Qed.

Lemma sortByDate_single (host : Host) (b : ArticlesByDate) :
  sortByDate host [b] = Some [b].
Proof.
  unfold sortByDate. simpl. now destruct (stamp host b).
Qed.

(** X20. When the host can read the [published_date] of none of the
    articles, the time series of a collection that is not empty is the one
    bucket "Invalid Date", counting every article. *)
Theorem undated_articles_share_one_bucket
        (host : Host) (data : list NewsArticle) :
  data <> [] ->
  Forall (fun a => timeOf host a = None) data ->
  articlesByDate host data
  = Some [mkArticlesByDate "Invalid Date" (N.of_nat (length data))].
Proof.
  intros Hne Hall.
  assert (Hd : map (fun article => displayDate host (published_date article))
                   data
               = repeat "Invalid Date" (length data)).
  { clear Hne. induction Hall as [|a l Ha _ IH]; simpl; [reflexivity|].
    unfold displayDate at 1. unfold timeOf in Ha. now rewrite Ha, IH. }
  unfold articlesByDate, dateGroups. rewrite Hd.
  destruct data as [|a l]; [congruence|].
  cbn [length repeat JsObject.countInto].
  change (JsObject.bump [] "Invalid Date") with (Some [("Invalid Date", 1%N)]).
  cbv beta iota. rewrite countInto_repeat_invalid. cbn [map dateEntry].
  rewrite sortByDate_single. cbn [option_map].
  change (lastn 7 [mkArticlesByDate "Invalid Date"
                     (1 + N.of_nat (length l))%N])
    with [mkArticlesByDate "Invalid Date" (1 + N.of_nat (length l))%N].
  do 3 f_equal. lia.
Qed.

Lemma undated_articles_share_one_bucket_witness :
  articlesByDate Hosts.enUS [undated; undated; undated]
  = Some [mkArticlesByDate "Invalid Date" 3].
Proof.
  apply (undated_articles_share_one_bucket Hosts.enUS [undated; undated; undated]).
  - discriminate.
  - repeat constructor.
Defined.

Lemma seriesTotal_app (l1 l2 : list ArticlesByDate) :
  seriesTotal (l1 ++ l2) = (seriesTotal l1 + seriesTotal l2)%N.
Proof.
  unfold seriesTotal. induction l1 as [|x l1 IH]; simpl; [reflexivity|].
  rewrite IH. lia.
Qed.

Lemma seriesTotal_perm (l1 l2 : list ArticlesByDate) :
  Permutation l1 l2 -> seriesTotal l1 = seriesTotal l2.
Proof.
  unfold seriesTotal. induction 1; simpl; lia.
Qed.

Lemma seriesTotal_entries (groups : JsObject.t) :
  seriesTotal (map dateEntry groups) = totalCount groups.
Proof.
  unfold seriesTotal, totalCount. rewrite map_map. f_equal.
  apply map_ext. now intros [d n].
Qed.

(** The time series as the sort of the groups, cut to the last 7. *)
Lemma articlesByDate_run (host : Host) (data : list NewsArticle) :
  Forall (fun d => JsObject.countable d = true) (displays host data) ->
  Forall (fun d => readable host d = true) (displays host data) ->
  exists groups,
    JsObject.countInto [] (displays host data) = Some groups
    /\ articlesByDate host data
       = Some (lastn 7 (JsSort.sort (notLater host) (map dateEntry groups))).
Proof.
  intros Hcount Hread.
  destruct (proj2 (countInto_total (displays host data)) Hcount)
    as [groups Hrun].
  exists groups. split; [exact Hrun|].
  assert (Hreadable :
            Forall (fun b => readable host (abd_date b) = true)
                   (map dateEntry groups)).
  { rewrite Forall_forall in *. intros b Hb. apply Hread.
    apply in_map_iff in Hb. destruct Hb as ([d n] & <- & Hin). simpl.
    apply (in_map fst) in Hin.
    now apply (countInto_keys _ _ _ Hrun) in Hin. }
  destruct (sortByDate_readable host _ Hreadable) as [Hsort _].
  unfold articlesByDate, dateGroups. fold (displayOf host).
  fold (displays host data). rewrite Hrun, Hsort. reflexivity.
Qed.

(** X21. The counts of the time series never add up to more than the
    number of articles, and the series has at most 7 buckets; when the
    articles fall on at most 7 distinct display dates (none of them the
    string ["__proto__"]), the counts add up to the number of articles. *)
Theorem series_accounts_for_articles (host : Host) (data : list NewsArticle) :
  Forall (fun d => JsObject.countable d = true) (displays host data) ->
  Forall (fun d => readable host d = true) (displays host data) ->
  exists series,
    articlesByDate host data = Some series
    /\ length series <= 7
    /\ (seriesTotal series <= N.of_nat (length data))%N
    /\ (Forall (fun d => JsObject.recorded d = true) (displays host data) ->
        length (nodup string_dec (displays host data)) <= 7 ->
        seriesTotal series = N.of_nat (length data)).
Proof.
  intros Hcount Hread.
  destruct (articlesByDate_run host data Hcount Hread)
    as (groups & Hrun & Hseries).
  set (buckets := JsSort.sort (notLater host) (map dateEntry groups)) in *.
  assert (Hperm : Permutation buckets (map dateEntry groups))
    by apply JsSortFacts.sort_perm.
  assert (Htotal : seriesTotal buckets
                   = N.of_nat (length (filter JsObject.recorded
                                              (displays host data)))).
  { rewrite (seriesTotal_perm _ _ Hperm), seriesTotal_entries.
    now apply countInto_totalCount. }
  assert (Hsplit : seriesTotal buckets
                   = (seriesTotal (firstn (length buckets - 7) buckets)
                      + seriesTotal (lastn 7 buckets))%N).
  { rewrite <- seriesTotal_app. unfold lastn. now rewrite firstn_skipn. }
  exists (lastn 7 buckets). split; [exact Hseries|].
  split; [unfold lastn; rewrite length_skipn; lia|]. split.
  - pose proof (filter_length_le JsObject.recorded (displays host data)) as Hle.
    unfold displays in Hle at 2. rewrite length_map in Hle. lia.
  - intros Hrec Hdistinct.
    assert (Hlen : length buckets = length (nodup string_dec (displays host data))).
    { rewrite (Permutation_length Hperm), length_map, <- (length_map fst groups).
      apply Permutation_length.
      destruct (countInto_countsOf _ _ Hrun) as (Hnd & _ & _).
      apply NoDup_Permutation; [exact Hnd | apply NoDup_nodup|].
      intros x. rewrite (countInto_keys _ _ x Hrun), nodup_In.
      rewrite Forall_forall in Hrec. split; [tauto|]. intros Hx. auto. }
    unfold lastn. replace (length buckets - 7) with 0 by lia.
    cbn [skipn]. rewrite Htotal, (forallb_filter_id _ _ Hrec).
    unfold displays. now rewrite length_map.
Qed.

Lemma series_accounts_for_articles_witness :
  exists series,
    articlesByDate Hosts.enUS winterArticles = Some series
    /\ seriesTotal series = 3%N.
Proof.
  destruct (series_accounts_for_articles Hosts.enUS winterArticles)
    as (series & Hrun & _ & _ & Hsum).
  - vm_compute. repeat constructor.
  - cbv [displays winterArticles map].
    repeat (apply Forall_cons; [vm_compute; reflexivity|]). apply Forall_nil.
  - exists series. split; [exact Hrun|]. apply Hsum.
    + vm_compute. repeat constructor.
    + vm_compute. lia.
Defined.

(** ** The order of the topics *)

(** X22. When no topic is an array index (nor names an inherited
    function, nor is ["__proto__"]), the distribution lists the distinct
    topics in the order in which they first occur in the collection. *)
Theorem topics_in_order_of_first_occurrence (data : list NewsArticle) :
  Forall (fun k => JsObject.countable k = true) (topics data) ->
  Forall (fun k => plainKey k = true) (topics data) ->
  exists dist,
    topicDistribution data = Some dist
    /\ map td_topic dist = firstOccurrences (topics data).
Proof.
  intros Hcount Hplain.
  destruct (proj2 (countInto_total (topics data)) Hcount) as [counts Hrun].
  exists (map (distributionEntry (length data)) counts). split.
  - unfold topicDistribution, topicCounts. fold (topics data).
    now rewrite Hrun.
  - destruct (countInto_countsOf _ _ Hrun)
      as (_ & _ & indices & Hkeys & Hidx & _).
    replace (map td_topic (map (distributionEntry (length data)) counts))
      with (map fst counts)
      by (rewrite map_map; apply map_ext; now intros [k n]).
    rewrite Hkeys, (forallb_filter_id _ _ Hplain).
    destruct indices as [|k indices]; [reflexivity|]. exfalso.
    apply Forall_cons_iff in Hidx. destruct Hidx as [Hk _].
    assert (Hin : In k (map fst counts)) by (rewrite Hkeys; now left).
    apply (countInto_keys _ _ k Hrun) in Hin. destruct Hin as [Hin _].
    rewrite Forall_forall in Hplain. specialize (Hplain k Hin).
    apply plainKey_isIndex in Hplain. congruence.
Qed.

Lemma topics_in_order_of_first_occurrence_witness :
  exists dist,
    topicDistribution
      [topicArticle "Product"; topicArticle "AI"; topicArticle "Product";
       topicArticle "Funding"; topicArticle "AI"] = Some dist
    /\ map td_topic dist = ["Product"; "AI"; "Funding"].
Proof.
  destruct (topics_in_order_of_first_occurrence
              [topicArticle "Product"; topicArticle "AI"; topicArticle "Product";
               topicArticle "Funding"; topicArticle "AI"])
    as (dist & Hrun & Horder).
  - repeat constructor.
  - repeat constructor.
  - exists dist. split; [exact Hrun | exact Horder].
Defined.

(** ** The dashboard's load *)

(** X23. In every state the dashboard can reach, the analytics it holds
    are those of the articles it holds.  A settled load ends the loading;
    one that ends with an error leaves articles and analytics as they
    were, and the error panel is shown exactly when the error message is
    not empty. *)
Theorem dashboard_state_is_consistent (host : Host) (st : DashboardState) :
  reachableDashboard host st ->
  d_analytics st = processAnalytics host (d_articles st)
  /\ forall outcome,
       d_loading (fetchDashboardData host st outcome) = false
       /\ (d_error (fetchDashboardData host st outcome) <> None ->
           d_articles (fetchDashboardData host st outcome) = d_articles st
           /\ d_analytics (fetchDashboardData host st outcome)
              = d_analytics st)
       /\ (forall m,
              dashboardView (fetchDashboardData host st outcome) = ErrorPanel m
              <-> d_error (fetchDashboardData host st outcome) = Some m
                  /\ m <> EmptyString).
Proof.
  intros Hreach. split.
  - induction Hreach as [|st outcome _ IH]; [reflexivity|].
    destruct outcome as [data [message|]|message]; simpl; auto.
  - intros outcome. split; [|split].
    + destruct outcome as [data [message|]|message]; reflexivity.
    + destruct outcome as [data [message|]|message]; simpl; auto.
      intros H. congruence.
    + intros m. unfold dashboardView.
      replace (d_loading (fetchDashboardData host st outcome)) with false
        by (destruct outcome as [data [message|]|message]; reflexivity).
      destruct (d_error (fetchDashboardData host st outcome)) as [[|c e]|];
        split; try discriminate; try (intros [H _]; discriminate).
      * intros [H Hne]. injection H as <-. congruence.
      * intros [= <-]. split; [reflexivity | discriminate].
      * intros [H _]. now injection H as <-.
Qed.

Lemma dashboard_state_is_consistent_witness :
  d_analytics (fetchDashboardData Hosts.enUS initialDashboard
                 (Answered (Some winterArticles) None))
  = processAnalytics Hosts.enUS winterArticles.
Proof.
  apply (proj1 (dashboard_state_is_consistent Hosts.enUS
                  (fetchDashboardData Hosts.enUS initialDashboard
                     (Answered (Some winterArticles) None))
                  (reach_load Hosts.enUS initialDashboard
                     (Answered (Some winterArticles) None)
                     (reach_initial Hosts.enUS)))).
Defined.

(** ** Badges *)

(** X24. The badge class of a category is ["badge badge-"] followed by the
    category's name in lower case, so distinct categories get distinct
    classes. *)
Theorem badge_class_names_category :
  (forall c,
      getCategoryBadgeClass c
      = ("badge badge-" ++ toLowerCase (categoryName c))%string)
  /\ (forall c1 c2,
         getCategoryBadgeClass c1 = getCategoryBadgeClass c2 -> c1 = c2).
Proof.
  split.
  - intros []; reflexivity.
  - intros [] []; simpl; intros H; try reflexivity; discriminate.
Qed.
